(** * Tabular Q-learning on a discretized cart-pole: model and properties

    A shallow embedding of [src/policies/q_table_learning.py]: the
    observation discretizer [DiscretizedObservationWrapper] and the
    epsilon-greedy tabular learner [QLearnPolicy], followed by the
    properties of the specification, C1 to C10, and by further properties
    read off the code, marked X.

    Modelling choices.
    - The program is Python 2 and runs on numpy 1.x; where numpy's scalar
      arithmetic matters, that semantics is the one modelled.
    - The state number computed by the discretizer is machine arithmetic:
      the digits that [np.digitize] returns are [np.int64], their products
      and sums wrap around modulo [2^64], and a weight [(n_bins+2)^i] that
      no longer fits a signed 64-bit integer turns the result into an
      [np.float64].  Weights of [2^64] and more make numpy fall back to
      Python objects; the model marks such a result and does not follow it.
    - The arithmetic on real numbers that the properties depend on (the
      exploration-rate schedule of [train] and the body of
      [_update_q_value]) is written once over an abstract arithmetic with
      two instances: exact rationals, and the arithmetic the program runs
      in, IEEE binary64 with results rounded to float32 when they are
      stored in the table.
    - The learner as a whole (its table, its hyperparameters, the rewards it
      adds up) is modelled with the exact instance, and the observations
      and bin edges of the discretizer are exact rationals.  Properties
      that hold in exact arithmetic only say so, and come with the value
      the program's own arithmetic gives instead.
    - Bound vectors of a [Box] are one-dimensional.
    - Indices into the table follow numpy: a negative index counts from the
      end, an index out of range raises.
    - A raised exception is a value of [result]; the unbounded [while True]
      loop of an episode is given fuel.
    - The environment is an abstract state with [reset] and [step]
      functions; random draws ([np.random.rand], [action_space.sample],
      [np.random.choice]) are explicit inputs of [act].
    - The text printed by [train] and the figure it writes are left out;
      the guard of the progress report, which can raise, is kept. *)

From stdpp Require Import list.
From Stdlib Require Import ZArith QArith Qabs Qminmax Lqa Lia Bool.
From Stdlib Require Import PrimFloat Uint63.
From Stdlib Require SpecFloat FloatOps.
Close Scope Q_scope.
Local Open Scope Z_scope.

(** ** Exceptions *)

Inductive exn : Type :=
| AssertionError
| IndexError
| ValueError
| ZeroDivisionError
| Exception.

Inductive result (A : Type) : Type :=
| Ok (a : A)
| Raise (e : exn)
| OutOfFuel.

Arguments Ok {A} a.
Arguments Raise {A} e.
Arguments OutOfFuel {A}.

Definition bind {A B : Type} (m : result A) (k : A -> result B) : result B :=
  match m with
  | Ok a => k a
  | Raise e => Raise e
  | OutOfFuel => OutOfFuel
  end.

Notation "x <- m ;; k" := (bind m (fun x => k))
  (at level 100, m at next level, right associativity).

(** A list comprehension whose body may raise: elements are evaluated from
    left to right and the first exception aborts the comprehension. *)
Fixpoint traverse {A B : Type} (f : A -> result B) (l : list A) : result (list B) :=
  match l with
  | [] => Ok []
  | x :: l' => y <- f x ;; ys <- traverse f l' ;; Ok (y :: ys)
  end.

(** ** Comparisons on rationals as booleans *)

Definition Qlt_bool (x y : Q) : bool := negb (Qle_bool y x).

(** ** The numpy and Python built-ins the program calls *)

Module np.

(** [range(n)] / [np.arange(n)]: the integers [0 .. n-1]. *)
Definition arange (n : Z) : list Z := map Z.of_nat (seq 0 (Z.to_nat n)).

(** [enumerate(l)] *)
Definition enumerate {A : Type} (l : list A) : list (Z * A) :=
  zip (arange (Z.of_nat (length l))) l.

(** The value of an [np.int64] operation whose exact result is [z]: it
    wraps around modulo [2^64]. *)
Definition int64 (z : Z) : Z := (z + 2 ^ 63) mod 2 ^ 64 - 2 ^ 63.

(** An integer converted to [np.float64]: the nearest binary64 number. *)
Definition float64 (z : Z) : float :=
  FloatOps.SF2Prim (SpecFloat.binary_normalize FloatOps.prec FloatOps.emax z 0 false).

(** A binary64 number stored into an array of [dtype=np.float32]: the
    nearest float32 number (24 bits of precision, exponents up to 128),
    again written as a binary64 number. *)
Definition float32 (x : float) : float :=
  match FloatOps.Prim2SF x with
  | SpecFloat.S754_finite s m e =>
      match SpecFloat.binary_round 24 128 s m e with
      | SpecFloat.S754_finite s' m' e' =>
          FloatOps.SF2Prim (SpecFloat.binary_round FloatOps.prec FloatOps.emax s' m' e')
      | r => FloatOps.SF2Prim r
      end
  | _ => x
  end.

(** The numbers [_convert_to_one_number] computes with: an [np.int64], an
    [np.float64], or a Python object, whose value is not followed. *)
Inductive number : Type :=
| Int (z : Z)
| Float (f : float)
| Beyond.

(** [d * w] for an [np.int64] [d] and a Python integer [w]: if [w] fits a
    signed 64-bit integer the product is an [np.int64] and wraps around;
    if [w] only fits an unsigned 64-bit integer both operands become
    [np.float64]; otherwise numpy falls back to Python objects. *)
Definition mul (d w : Z) : number :=
  if (- 2 ^ 63 <=? w) && (w <? 2 ^ 63) then Int (int64 (d * w))
  else if (0 <=? w) && (w <? 2 ^ 64) then Float (float64 d * float64 w)%float
  else Beyond.

(** [x + y]: the sum of two [np.int64] wraps around, and an [np.float64]
    operand makes the other one an [np.float64] too. *)
Definition add (x y : number) : number :=
  match x, y with
  | Int a, Int b => Int (int64 (a + b))
  | Int a, Float g => Float (float64 a + g)%float
  | Float f, Int b => Float (f + float64 b)%float
  | Float f, Float g => Float (f + g)%float
  | _, _ => Beyond
  end.

(** Python's [sum] over a list of such numbers; it starts from the
    integer 0. *)
Definition sum (l : list number) : number := fold_left add l (Int 0).

(** [a[-1] = v] on a non-empty list. *)
Definition set_last {A : Type} (a : list A) (v : A) : list A :=
  <[(length a - 1)%nat := v]> a.

(** [np.linspace(start, stop, num)]: [num] samples, evenly spaced over
    the closed interval; a negative [num] is rejected, one sample is
    [start], and with two or more samples the last one is set to [stop]. *)
Definition linspace (start stop : Q) (num : Z) : result (list Q) :=
  if num <? 0 then Raise ValueError
  else
    let delta := (stop - start)%Q in
    let step := (delta / inject_Z (num - 1))%Q in
    let scale := if 1 <? num then step else delta in
    let y := map (fun i => (inject_Z i * scale + start)%Q) (arange num) in
    Ok (if 1 <? num then set_last y stop else y).

Fixpoint nondecreasing (a : list Q) : bool :=
  match a with
  | x :: (y :: _) as a' => Qle_bool x y && nondecreasing a'
  | _ => true
  end.

Fixpoint nonincreasing (a : list Q) : bool :=
  match a with
  | x :: (y :: _) as a' => Qle_bool y x && nonincreasing a'
  | _ => true
  end.

(** [np.searchsorted(a, v, side='right')] on a sorted array: the index of
    the first element strictly greater than [v] ([len(a)] if none). *)
Fixpoint searchsorted_right (a : list Q) (v : Q) : nat :=
  match a with
  | [] => 0%nat
  | x :: a' => if Qle_bool x v then S (searchsorted_right a' v) else 0%nat
  end.

(** [np.digitize([x], bins)[0]] with the default [right=False]:
    for increasing bins the [i] with [bins[i-1] <= x < bins[i]], for
    decreasing bins the [i] with [bins[i-1] > x >= bins[i]], found by
    searching the reversed bins and counting from the end; bins that are
    neither are rejected.  (Constant and empty bins count as increasing.) *)
Definition digitize (x : Q) (bins : list Q) : result Z :=
  if nondecreasing bins then
    Ok (Z.of_nat (searchsorted_right bins x))
  else if nonincreasing bins then
    Ok (Z.of_nat (length bins - searchsorted_right (rev bins) x))
  else Raise ValueError.

(** Index normalisation of a numpy axis of length [n]: a negative index
    counts from the end, anything outside [-n .. n-1] raises. *)
Definition index (n : nat) (i : Z) : result nat :=
  if (0 <=? i) && (i <? Z.of_nat n) then Ok (Z.to_nat i)
  else if (- Z.of_nat n <=? i) && (i <? 0) then Ok (Z.to_nat (Z.of_nat n + i))
  else Raise IndexError.

(** [a[i, :]] *)
Definition row {A : Type} (a : list (list A)) (i : Z) : result (list A) :=
  k <- index (length a) i ;;
  match a !! k with
  | Some r => Ok r
  | None => Raise IndexError
  end.

(** [a[i, j]] *)
Definition get {A : Type} (a : list (list A)) (i j : Z) : result A :=
  r <- row a i ;;
  k <- index (length r) j ;;
  match r !! k with
  | Some v => Ok v
  | None => Raise IndexError
  end.

(** [a[i, j] = v] *)
Definition set {A : Type} (a : list (list A)) (i j : Z) (v : A)
  : result (list (list A)) :=
  ki <- index (length a) i ;;
  match a !! ki with
  | Some r =>
      kj <- index (length r) j ;;
      Ok (<[ki := <[kj := v]> r]> a)
  | None => Raise IndexError
  end.

(** [np.max] of a one-dimensional array whose elements are compared by
    [gt]; the empty array has no maximum. *)
Definition max {A : Type} (gt : A -> A -> bool) (r : list A) : result A :=
  match r with
  | [] => Raise ValueError
  | x :: r' => Ok (fold_left (fun m y => if gt y m then y else m) r' x)
  end.

(** [np.zeros(shape=(n, m))]; a negative dimension is rejected. *)
Definition zeros (n m : Z) : result (list (list Q)) :=
  if (n <? 0) || (m <? 0) then Raise ValueError
  else Ok (replicate (Z.to_nat n) (replicate (Z.to_nat m) 0%Q)).

(** [xs[mask]] for a boolean mask: the mask must be as long as [xs]. *)
Definition select {A : Type} (xs : list A) (mask : list bool) : result (list A) :=
  if Nat.eqb (length xs) (length mask)
  then Ok (omap (fun '(x, b) => if b : bool then Some x else None) (zip xs mask))
  else Raise IndexError.

(** [np.random.choice(xs)] on the draw [raw]: some element of a non-empty
    [xs]; every element is returned by some draw. *)
Definition choice {A : Type} (xs : list A) (raw : nat) : result A :=
  match xs !! (raw mod length xs)%nat with
  | Some x => Ok x
  | None => Raise ValueError
  end.

(** [np_random.randint(n)] on the draw [raw]. *)
Definition randint (n : Z) (raw : nat) : result Z :=
  if n <=? 0 then Raise ValueError else Ok (Z.of_nat raw mod n).

(** [np.mean] of a non-empty list. *)
Definition mean (l : list Q) : Q :=
  (fold_left Qplus l 0 / inject_Z (Z.of_nat (length l)))%Q.

End np.

(** ** gym spaces and environments *)

(** [Box(low, high)] with one-dimensional bound vectors, and
    [Discrete(n)], which stores [n] as given. *)
Inductive space : Type :=
| Box (low high : list Q)
| Discrete (n : Z).

(** What the constructors read from an environment object. *)
Record spaces : Type := {
  observation_space : space;
  action_space : space
}.

(** ** The discretizer *)

Module DiscretizedObservationWrapper.

Record t : Type := {
  n_bins : Z;
  val_bins : list (list Q);
  wrapped_observation_space : space;   (* [self.observation_space] *)
  wrapped_action_space : space         (* [self.action_space], the inner environment's *)
}.

(** [v = default if v is None else v] *)
Definition given (default : list Q) (v : option (list Q)) : list Q :=
  match v with
  | None => default
  | Some l => l
  end.

(** [__init__(self, env, n_bins, low, high)]; [low] and [high] are [None]
    or flat vectors. *)
Definition __init__ (env : spaces) (n_bins : Z) (low high : option (list Q))
  : result t :=
  match observation_space env with
  | Box env_low env_high =>
      let low := given env_low low in
      let high := given env_high high in
      val_bins <- traverse (fun lh => np.linspace (fst lh) (snd lh) (n_bins + 1))
                           (zip low high) ;;
      Ok {| n_bins := n_bins;
            val_bins := val_bins;
            wrapped_observation_space :=
              Discrete ((n_bins + 2) ^ Z.of_nat (length low));
            wrapped_action_space := action_space env |}
  | Discrete _ => Raise AssertionError
  end.

(** [digits] are the [np.int64] that [np.digitize] returns; the weights
    [(self.n_bins + 2) ** i] are Python integers. *)
Definition _convert_to_one_number (self : t) (digits : list Z) : np.number :=
  np.sum (map (fun id => np.mul (snd id) ((n_bins self + 2) ^ fst id))
              (np.enumerate digits)).

(** The list comprehension of [observation]: one bin index per dimension. *)
Definition digits (self : t) (observation : list Q) : result (list Z) :=
  traverse (fun xb => np.digitize (fst xb) (snd xb)) (zip observation (val_bins self)).

Definition observation (self : t) (observation : list Q) : result np.number :=
  ds <- digits self observation ;;
  Ok (_convert_to_one_number self ds).

End DiscretizedObservationWrapper.

(** ** The arithmetic of the program, and its exact idealisation *)

Record arith (F : Type) : Type := {
  a_add : F -> F -> F;          (* [x + y] *)
  a_sub : F -> F -> F;          (* [x - y] *)
  a_mul : F -> F -> F;          (* [x * y] *)
  a_div_int : F -> Z -> F;      (* [x / n] for an integer [n <> 0] *)
  a_gtb : F -> F -> bool;       (* [x > y] *)
  a_cell : F -> F               (* [x] as a cell of the table holds it *)
}.
Arguments a_add {F} _ _ _.
Arguments a_sub {F} _ _ _.
Arguments a_mul {F} _ _ _.
Arguments a_div_int {F} _ _ _.
Arguments a_gtb {F} _ _ _.
Arguments a_cell {F} _ _.

(** Exact rational arithmetic. *)
Definition exact : arith Q :=
  {| a_add := Qplus;
     a_sub := Qminus;
     a_mul := Qmult;
     a_div_int := fun x n => (x / inject_Z n)%Q;
     a_gtb := fun x y => Qlt_bool y x;
     a_cell := fun x => x |}.

(** The integer [n] as a binary64 number (exact below [2^53]). *)
Definition float_of_Z (n : Z) : float :=
  if n <? 0 then PrimFloat.opp (PrimFloat.of_uint63 (Uint63.of_Z (- n)))
  else PrimFloat.of_uint63 (Uint63.of_Z n).

(** The arithmetic the program runs in: IEEE binary64, the arithmetic of
    Python floats and of an [np.float32] combined with one, and a table of
    [dtype=np.float32], whose cells hold what is stored in them rounded to
    float32. *)
Definition binary64 : arith float :=
  {| a_add := PrimFloat.add;
     a_sub := PrimFloat.sub;
     a_mul := PrimFloat.mul;
     a_div_int := fun x n => PrimFloat.div x (float_of_Z n);
     a_gtb := fun x y => PrimFloat.ltb y x;
     a_cell := np.float32 |}.

Section Schedule.
Context {F : Type} (ar : arith F).

(** [epsilon_drop = (self.epsilon - self.epsilon_final) / n_episodes] *)
Definition epsilon_drop (epsilon epsilon_final : F) (n_episodes : Z) : result F :=
  if n_episodes =? 0 then Raise ZeroDivisionError
  else Ok (a_div_int ar (a_sub ar epsilon epsilon_final) n_episodes).

(** [if self.epsilon > self.epsilon_final: self.epsilon -= epsilon_drop] *)
Definition decay_epsilon (epsilon_final drop epsilon : F) : F :=
  if a_gtb ar epsilon epsilon_final then a_sub ar epsilon drop else epsilon.

(** The exploration rate after [N] completed episodes. *)
Definition epsilon_after (N : nat) (epsilon_final drop epsilon : F) : F :=
  Nat.iter N (decay_epsilon epsilon_final drop) epsilon.

(** The exploration rate after [N] completed episodes of
    [train(n_episodes)] started at [epsilon]. *)
Definition epsilon_schedule (epsilon epsilon_final : F) (n_episodes : Z) (N : nat)
  : result F :=
  drop <- epsilon_drop epsilon epsilon_final n_episodes ;;
  Ok (epsilon_after N epsilon_final drop epsilon).
End Schedule.

(** ** The update rule, over the same arithmetic *)

Section Rule.
Context {F : Type} (ar : arith F).

(** [reward + self.gamma * max_q_next] *)
Definition bootstrap (gamma reward max_q_next : F) : F :=
  a_add ar reward (a_mul ar gamma max_q_next).

(** What [self.Q[state, action] += self.alpha * (target - self.Q[state, action])]
    leaves in the cell that held [q]: the right-hand side is computed and
    added to [q], and the sum is stored into the table. *)
Definition updated (alpha q target : F) : F :=
  a_cell ar (a_add ar q (a_mul ar alpha (a_sub ar target q))).

(** The body of [_update_q_value], on the table [Q] and with the learning
    rate and the discount given. *)
Definition update_table (Q : list (list F)) (alpha gamma : F)
  (state action new_state : Z) (reward : F) (done : bool)
  : result (list (list F)) :=
  if done then
    q <- np.get Q state action ;;
    np.set Q state action (updated alpha q reward)
  else
    r <- np.row Q new_state ;;
    max_q_next <- np.max (a_gtb ar) r ;;
    q <- np.get Q state action ;;
    np.set Q state action (updated alpha q (bootstrap gamma reward max_q_next)).
End Rule.

(** ** The learner

    The learner is modelled in the exact instance of the arithmetic: its
    hyperparameters, the cells of its table and the rewards are rationals.
    In the program the hyperparameters and rewards are binary64 and the
    table is float32; what that changes is shown on [update_table binary64]
    and [epsilon_schedule binary64]. *)

(** The random draws one call of [act] may consume. *)
Record draw : Type := {
  rand : Q;       (* [np.random.rand()], in [0, 1) *)
  sample : nat;   (* the generator output behind [action_space.sample()] *)
  pick : nat      (* the generator output behind [np.random.choice] *)
}.

Module QLearnPolicy.

Record t : Type := {
  gamma : Q;
  alpha : Q;
  alpha_decay : Q;
  epsilon : Q;
  epsilon_final : Q;
  n_actions : Z;
  n_states : Z;
  Qtab : list (list Q)       (* [self.Q], one row per state *)
}.

Definition __init__ (env : spaces)
  (gamma alpha alpha_decay epsilon epsilon_final : Q) : result t :=
  match action_space env with
  | Discrete na =>
      match observation_space env with
      | Discrete ns =>
          tab <- np.zeros ns na ;;
          Ok {| gamma := gamma;
                alpha := alpha;
                alpha_decay := alpha_decay;
                epsilon := epsilon;
                epsilon_final := epsilon_final;
                n_actions := na;
                n_states := ns;
                Qtab := tab |}
      | Box _ _ => Raise AssertionError
      end
  | Box _ _ => Raise AssertionError
  end.

Definition set_Q (self : t) (tab : list (list Q)) : t :=
  {| gamma := gamma self;
     alpha := alpha self;
     alpha_decay := alpha_decay self;
     epsilon := epsilon self;
     epsilon_final := epsilon_final self;
     n_actions := n_actions self;
     n_states := n_states self;
     Qtab := tab |}.

(** [actions_with_max_q = np.arange(self.n_actions)[self.Q[state, :] == max_q]] *)
Definition actions_with_max_q (self : t) (r : list Q) (max_q : Q) : result (list Z) :=
  np.select (np.arange (n_actions self)) (map (fun q => Qeq_bool q max_q) r).

Definition explores (self : t) (training : bool) (d : draw) : bool :=
  training && Qlt_bool 0 (epsilon self) && Qlt_bool (rand d) (epsilon self).

Definition act (self : t) (state : Z) (training : bool) (d : draw) : result Z :=
  if explores self training d
  then np.randint (n_actions self) (sample d)
  else
    r <- np.row (Qtab self) state ;;
    max_q <- np.max (a_gtb exact) r ;;
    acts <- actions_with_max_q self r max_q ;;
    np.choice acts (pick d).

Definition _update_q_value (self : t) (state action new_state : Z)
  (reward : Q) (done : bool) : result t :=
  tab <- update_table exact (Qtab self) (alpha self) (gamma self)
           state action new_state reward done ;;
  Ok (set_Q self tab).

(** The end-of-episode bookkeeping of [train]:
    [self.alpha *= self.alpha_decay] and the exploration-rate step. *)
Definition decay (self : t) (drop : Q) : t :=
  {| gamma := gamma self;
     alpha := a_mul exact (alpha self) (alpha_decay self);
     alpha_decay := alpha_decay self;
     epsilon := decay_epsilon exact (epsilon_final self) drop (epsilon self);
     epsilon_final := epsilon_final self;
     n_actions := n_actions self;
     n_states := n_states self;
     Qtab := Qtab self |}.

(** The guard of the progress report of [train],
    [every_episodes is not None and episode % every_episodes == 0]: the
    modulo raises for [every_episodes = 0].  (The report itself only
    prints.) *)
Definition reports (every_episodes : option Z) (episode : Z) : result bool :=
  match every_episodes with
  | None => Ok false
  | Some n => if n =? 0 then Raise ZeroDivisionError else Ok (episode mod n =? 0)
  end.

(** An exception escaping [_update_q_value] inside [train] is caught and
    replaced by a plain [Exception]. *)
Definition reraise {A : Type} (m : result A) : result A :=
  match m with
  | Raise _ => Raise Exception
  | _ => m
  end.

Section Rollout.
(** The environment: an abstract state with [reset] and [step], and the
    stream of random draws, indexed by the number of calls to [act]. *)
Context {E : Type}.
Variable reset : E -> E * Z.
Variable step : E -> Z -> E * (Z * Q * bool).
Variable rng : nat -> draw.
Variable every_episodes : option Z.

Record run : Type := {
  policy : t;
  world : E;
  steps : nat;
  reward_history : list Q;
  reward_averaged : list Q
}.

(** The [while True] loop of one training episode. *)
Fixpoint episode (fuel : nat) (self : t) (e : E) (state : Z)
  (steps : nat) (reward_episode : Q) : result (t * E * nat * Q) :=
  match fuel with
  | O => OutOfFuel
  | S fuel' =>
      action <- act self state true (rng steps) ;;
      let '(e', (new_state, reward, done)) := step e action in
      self' <- reraise (_update_q_value self state action new_state reward done) ;;
      let steps := S steps in
      let reward_episode := a_add exact reward_episode reward in
      if done : bool then Ok (self', e', steps, reward_episode)
      else episode fuel' self' e' new_state steps reward_episode
  end.

(** [k] iterations of the [for episode in xrange(n_episodes)] loop; the
    number of the current episode is the length of the reward history. *)
Fixpoint episodes (k fuel : nat) (drop : Q) (s : run) : result run :=
  match k with
  | O => Ok s
  | S k' =>
      let '(e, state) := reset (world s) in
      r <- episode fuel (policy s) e state (steps s) 0%Q ;;
      let '(self, e, n, reward_episode) := r in
      let history := reward_history s ++ [reward_episode] in
      let averaged :=
        reward_averaged s ++ [np.mean (skipn (length history - 50)%nat history)] in
      _ <- reports every_episodes (Z.of_nat (length (reward_history s))) ;;
      episodes k' fuel drop
        {| policy := decay self drop;
           world := e;
           steps := n;
           reward_history := history;
           reward_averaged := averaged |}
  end.

Definition start (self : t) (e : E) : run :=
  {| policy := self; world := e; steps := 0;
     reward_history := []; reward_averaged := [] |}.

(** [train(n_episodes)] cut after [N] iterations of its episode loop. *)
Definition train_upto (self : t) (e : E) (n_episodes : Z) (N fuel : nat)
  : result run :=
  drop <- epsilon_drop exact (epsilon self) (epsilon_final self) n_episodes ;;
  episodes N fuel drop (start self e).

(** [train(n_episodes, every_episodes=every_episodes)]: the whole loop,
    then the final report, whose [np.max(reward_history)] needs a non-empty
    history.  The text printed and the figure written are left out. *)
Definition train (self : t) (e : E) (n_episodes : Z) (fuel : nat) : result run :=
  s <- train_upto self e n_episodes (Z.to_nat n_episodes) fuel ;;
  match reward_history s with
  | [] => Raise ValueError
  | _ :: _ => Ok s
  end.

(** The [while True] loop of one evaluation episode. *)
Fixpoint eval_episode (fuel : nat) (self : t) (e : E) (state : Z)
  (calls : nat) (reward_episode : Q) : result (E * nat * Q) :=
  match fuel with
  | O => OutOfFuel
  | S fuel' =>
      action <- act self state false (rng calls) ;;
      let '(e', (new_state, reward, done)) := step e action in
      let reward_episode := a_add exact reward_episode reward in
      if done : bool then Ok (e', S calls, reward_episode)
      else eval_episode fuel' self e' new_state (S calls) reward_episode
  end.

Fixpoint evaluate_loop (k fuel : nat) (self : t) (e : E) (calls : nat)
  (history : list Q) : result (list Q) :=
  match k with
  | O => Ok history
  | S k' =>
      let '(e, state) := reset e in
      r <- eval_episode fuel self e state calls 0%Q ;;
      let '(e, calls, reward_episode) := r in
      evaluate_loop k' fuel self e calls (history ++ [reward_episode])
  end.

Definition evaluate (self : t) (e : E) (n_episodes : Z) (fuel : nat)
  : result (list Q) :=
  evaluate_loop (Z.to_nat n_episodes) fuel self e 0%nat [].
End Rollout.

End QLearnPolicy.

(** ** Reference definitions, following the specification's wording *)

(** The mixed-radix value [sum_i d_i * base^i] of the digits at positions
    [i, i+1, ...]. *)
Fixpoint mixed_radix (base : Z) (i : nat) (ds : list Z) : Z :=
  match ds with
  | [] => 0
  | d :: ds' => d * base ^ Z.of_nat i + mixed_radix base (S i) ds'
  end.

(** Decoding a state into [k] digits by repeated modulo and division. *)
Fixpoint decode (base : Z) (k : nat) (s : Z) : list Z :=
  match k with
  | O => []
  | S k' => s mod base :: decode base k' (s / base)
  end.

(** A list of edges built by [np.linspace] with [num] samples. *)
Definition edges (num : Z) (bins : list Q) : Prop :=
  exists start stop, np.linspace start stop num = Ok bins.

(** The cell [Q[i, j]] of a table, for in-range positions. *)
Definition cell (tab : list (list Q)) (i j : nat) : option Q :=
  match tab !! i with
  | Some r => r !! j
  | None => None
  end.

(** [m] is the maximum of the row [r]. *)
Definition maximum (m : Q) (r : list Q) : Prop :=
  In m r /\ forall y, In y r -> (y <= m)%Q.

(** A table of shape [(n_states, n_actions)]. *)
Definition shaped (tab : list (list Q)) (n_states n_actions : Z) : Prop :=
  Z.of_nat (length tab) = n_states /\
  Forall (fun r => Z.of_nat (length r) = n_actions) tab.

(** Every cell of the table is at most [B] in absolute value. *)
Definition bounded (B : Q) (tab : list (list Q)) : Prop :=
  Forall (Forall (fun q => (Qabs q <= B)%Q)) tab.

(** The learner after a finite sequence of update calls that returned,
    each with a reward of absolute value at most [R]. *)
Inductive updates (R : Q) (p0 : QLearnPolicy.t) : QLearnPolicy.t -> Prop :=
| updates_none : updates R p0 p0
| updates_call (p p' : QLearnPolicy.t) (state action new_state : Z)
    (reward : Q) (done : bool) :
    updates R p0 p ->
    (Qabs reward <= R)%Q ->
    QLearnPolicy._update_q_value p state action new_state reward done = Ok p' ->
    updates R p0 p'.

(** A small discrete environment interface: three states, two actions. *)
Definition toy_spaces : spaces :=
  {| observation_space := Discrete 3; action_space := Discrete 2 |}.

(** An environment in which every episode ends after one step with
    reward 1, and a fixed stream of random draws. *)
Definition toy_reset (e : unit) : unit * Z := (e, 0).

Definition toy_step (e : unit) (action : Z) : unit * (Z * Q * bool) :=
  (e, (1, 1%Q, true)).

Definition toy_rng (n : nat) : draw :=
  {| rand := 1 # 2; sample := n; pick := n |}.

(** A continuous environment interface with two observation dimensions. *)
Definition box_spaces : spaces :=
  {| observation_space := Box [-5; -7]%Q [5; 7]%Q; action_space := Discrete 2 |}.

(** A continuous environment interface with [d] observation dimensions,
    each bounded by -1 and 1. *)
Definition cube (d : nat) : spaces :=
  {| observation_space := Box (replicate d (-1)%Q) (replicate d 1%Q);
     action_space := Discrete 2 |}.

(** Two learners with the same fixed settings: everything but the table,
    the learning rate and the exploration rate. *)
Definition same_settings (p p' : QLearnPolicy.t) : Prop :=
  QLearnPolicy.gamma p' = QLearnPolicy.gamma p /\
  QLearnPolicy.alpha_decay p' = QLearnPolicy.alpha_decay p /\
  QLearnPolicy.epsilon_final p' = QLearnPolicy.epsilon_final p /\
  QLearnPolicy.n_states p' = QLearnPolicy.n_states p /\
  QLearnPolicy.n_actions p' = QLearnPolicy.n_actions p.

(** An environment whose states stay in [0 .. n_states-1] as long as it is
    driven with actions in [0 .. n_actions-1]. *)
Definition stays_in_range {E : Type} (n_states n_actions : Z)
  (reset : E -> E * Z) (step : E -> Z -> E * (Z * Q * bool)) : Prop :=
  (forall e, 0 <= snd (reset e) < n_states) /\
  (forall e a, 0 <= a < n_actions ->
               0 <= fst (fst (snd (step e a))) < n_states).

(** An environment whose episodes end: [h] bounds the number of steps an
    episode can still take after the next one, and is at most [H] after a
    reset. *)
Definition horizon {E : Type} (H : nat) (h : E -> nat)
  (reset : E -> E * Z) (step : E -> Z -> E * (Z * Q * bool)) : Prop :=
  (forall e, (h (fst (reset e)) <= H)%nat) /\
  (forall e a, snd (snd (step e a)) = false -> (h (fst (step e a)) < h e)%nat).

(** The call raised an exception. *)
Definition raises {A : Type} (r : result A) : Prop :=
  match r with
  | Raise _ => True
  | _ => False
  end.

(** An environment that counts down from 3: an episode takes three steps
    and visits the states 0, 2, 1. *)
Definition countdown_reset (e : nat) : nat * Z := (3%nat, 0).

Definition countdown_step (e : nat) (action : Z) : nat * (Z * Q * bool) :=
  (Nat.pred e, (Z.of_nat (Nat.pred e mod 3), 1%Q, (e <=? 1)%nat)).

(** ** Basic facts *)

Lemma Qlt_bool_iff (x y : Q) : Qlt_bool x y = true <-> (x < y)%Q.
Proof.
  unfold Qlt_bool. rewrite negb_true_iff. split.
  - intros H. apply Qnot_le_lt. intros Hle.
    apply Qle_bool_iff in Hle. congruence.
  - intros H. destruct (Qle_bool y x) eqn:E; [|reflexivity].
    apply Qle_bool_iff in E. lra.
Qed.

Lemma Qlt_bool_false (x y : Q) : Qlt_bool x y = false <-> (y <= x)%Q.
Proof.
  unfold Qlt_bool. rewrite negb_false_iff. apply Qle_bool_iff.
Qed.

Lemma Qle_bool_false (x y : Q) : Qle_bool x y = false <-> (y < x)%Q.
Proof.
  split.
  - intros H. apply Qnot_le_lt. intros Hle. apply Qle_bool_iff in Hle. congruence.
  - intros H. destruct (Qle_bool x y) eqn:E; [|reflexivity].
    apply Qle_bool_iff in E. lra.
Qed.

Lemma bind_Ok {A B : Type} (m : result A) (k : A -> result B) (b : B) :
  bind m k = Ok b -> exists a, m = Ok a /\ k a = Ok b.
Proof. destruct m; simpl; intros H; try discriminate. eauto. Qed.

Ltac inv_bind H :=
  let a := fresh "v" in
  let Ha := fresh "Hv" in
  apply bind_Ok in H; destruct H as (a & Ha & H).

Tactic Notation "unbind" hyp(H) "as" ident(a) ident(Ha) :=
  apply bind_Ok in H; destruct H as (a & Ha & H).

(** ** The positional encoding *)

Section Radix.
Variable base : Z.

Lemma mixed_radix_shift (ds : list Z) (i : nat) :
  mixed_radix base (S i) ds = base * mixed_radix base i ds.
Proof.
  revert i. induction ds as [|d ds IH]; intros i; cbn [mixed_radix].
  - lia.
  - rewrite IH. rewrite (Nat2Z.inj_succ i), Z.pow_succ_r by lia. ring.
Qed.

Lemma mixed_radix_cons (d : Z) (ds : list Z) :
  mixed_radix base 0 (d :: ds) = d + base * mixed_radix base 0 ds.
Proof. cbn [mixed_radix]. rewrite mixed_radix_shift. simpl. lia. Qed.

Lemma mixed_radix_range (ds : list Z) :
  0 < base ->
  Forall (fun d => 0 <= d < base) ds ->
  0 <= mixed_radix base 0 ds < base ^ Z.of_nat (length ds).
Proof.
  intros Hb H. induction H as [|d ds Hd _ IH].
  - simpl. lia.
  - rewrite mixed_radix_cons. cbn [length].
    rewrite Nat2Z.inj_succ, Z.pow_succ_r by lia. nia.
Qed.

Lemma decode_mixed_radix (ds : list Z) :
  Forall (fun d => 0 <= d < base) ds ->
  decode base (length ds) (mixed_radix base 0 ds) = ds.
Proof.
  intros H. induction H as [|d ds Hd _ IH].
  - reflexivity.
  - cbn [length decode]. rewrite mixed_radix_cons.
    assert (Hm : (d + base * mixed_radix base 0 ds) mod base = d).
    { symmetry. apply Z.mod_unique_pos with (q := mixed_radix base 0 ds); lia. }
    assert (Hq : (d + base * mixed_radix base 0 ds) / base = mixed_radix base 0 ds).
    { symmetry. apply Z.div_unique_pos with (r := d); lia. }
    rewrite Hm, Hq, IH. reflexivity.
Qed.
End Radix.

(** ** Machine integers *)

Lemma two_63 : 2 ^ 63 = 9223372036854775808.
Proof. reflexivity. Qed.

Lemma two_64 : 2 ^ 64 = 18446744073709551616.
Proof. reflexivity. Qed.

Lemma int64_small (z : Z) : - 2 ^ 63 <= z < 2 ^ 63 -> np.int64 z = z.
Proof.
  rewrite two_63. intros H. unfold np.int64. rewrite two_63, two_64.
  rewrite Z.mod_small by lia. lia.
Qed.

Lemma mul_small (d w : Z) :
  - 2 ^ 63 <= w < 2 ^ 63 -> - 2 ^ 63 <= d * w < 2 ^ 63 -> np.mul d w = np.Int (d * w).
Proof.
  intros Hw Hdw. unfold np.mul.
  destruct (- 2 ^ 63 <=? w) eqn:E1; [|apply Z.leb_gt in E1; lia].
  destruct (w <? 2 ^ 63) eqn:E2; [|apply Z.ltb_ge in E2; lia].
  cbn [andb]. rewrite int64_small by exact Hdw. reflexivity.
Qed.

(** If the next weight is at most [2^63], a weight is below [2^63]. *)
Lemma weight_fits (base : Z) (i : nat) :
  1 <= base -> base ^ Z.of_nat (S i) <= 2 ^ 63 ->
  1 <= base ^ Z.of_nat i < 2 ^ 63.
Proof.
  intros Hb. rewrite Nat2Z.inj_succ, Z.pow_succ_r by lia. rewrite two_63. intros H.
  assert (Hp : 0 < base ^ Z.of_nat i) by (apply Z.pow_pos_nonneg; lia).
  split; [lia|].
  destruct (Z.eq_dec base 1) as [->|Hne]; [rewrite Z.pow_1_l by lia; lia|]. nia.
Qed.

(** As long as [base ^ k] is at most [2^63], the sum computed on
    [np.int64] is the sum of the integers. *)
Lemma weighted_sum_from (base : Z) (ds : list Z) (i : nat) (a : Z) :
  Forall (fun d => 0 <= d < base) ds ->
  0 <= a < base ^ Z.of_nat i ->
  base ^ Z.of_nat (i + length ds) <= 2 ^ 63 ->
  fold_left np.add
    (map (fun id : Z * Z => np.mul (snd id) (base ^ fst id))
         (zip (map Z.of_nat (seq i (length ds))) ds))
    (np.Int a)
  = np.Int (a + mixed_radix base i ds).
Proof.
  intros Hds. revert i a. induction Hds as [|d ds Hd _ IH]; intros i a Ha Hfit.
  - simpl. f_equal. lia.
  - cbn [length seq map zip zip_with fold_left fst snd mixed_radix].
    assert (Hb : 1 <= base) by lia.
    assert (Hnext : base ^ Z.of_nat (S i) <= 2 ^ 63).
    { etransitivity; [|exact Hfit]. apply Z.pow_le_mono_r; [lia|]. simpl. lia. }
    pose proof (weight_fits base i Hb Hnext) as Hw.
    rewrite Nat2Z.inj_succ, Z.pow_succ_r in Hnext by lia.
    set (P := base ^ Z.of_nat i) in *.
    assert (Hdw : 0 <= d * P <= (base - 1) * P) by nia.
    rewrite mul_small by (rewrite two_63 in *; nia).
    cbn [np.add]. rewrite int64_small by (rewrite two_63 in *; nia).
    rewrite (IH (S i) (a + d * P)).
    + f_equal. lia.
    + rewrite Nat2Z.inj_succ, Z.pow_succ_r by lia. fold P. nia.
    + replace (S i + length ds)%nat with (i + S (length ds))%nat by lia. exact Hfit.
Qed.

Lemma convert_mixed_radix (w : DiscretizedObservationWrapper.t) (base : Z)
  (ds : list Z) :
  DiscretizedObservationWrapper.n_bins w + 2 = base ->
  Forall (fun d => 0 <= d < base) ds ->
  base ^ Z.of_nat (length ds) <= 2 ^ 63 ->
  DiscretizedObservationWrapper._convert_to_one_number w ds
  = np.Int (mixed_radix base 0 ds).
Proof.
  intros <- Hds Hfit.
  unfold DiscretizedObservationWrapper._convert_to_one_number, np.enumerate, np.arange,
    np.sum.
  rewrite Nat2Z.id.
  rewrite (weighted_sum_from _ ds 0 0 Hds); [reflexivity|simpl; lia|exact Hfit].
Qed.

(** ** Bin edges *)

Lemma lookup_map {A B : Type} (f : A -> B) (l : list A) (i : nat) :
  map f l !! i = option_map f (l !! i).
Proof.
  revert i. induction l as [|x l IH]; intros [|i]; simpl; try reflexivity.
  apply IH.
Qed.

Lemma lookup_arange (n : Z) (i : nat) (z : Z) :
  np.arange n !! i = Some z <-> z = Z.of_nat i /\ (i < Z.to_nat n)%nat.
Proof.
  unfold np.arange. rewrite lookup_map. split.
  - destruct (seq 0 (Z.to_nat n) !! i) as [k|] eqn:E; simpl; intros H; [|discriminate].
    apply lookup_seq in E. destruct E as [-> Hi]. injection H as <-. split; [reflexivity|lia].
  - intros [-> Hi]. rewrite (lookup_seq_lt 0 (Z.to_nat n) i Hi). reflexivity.
Qed.

Lemma arange_length (n : Z) : length (np.arange n) = Z.to_nat n.
Proof. unfold np.arange. rewrite length_map. apply length_seq. Qed.

Lemma linspace_Ok (start stop : Q) (num : Z) :
  0 <= num -> exists l, np.linspace start stop num = Ok l.
Proof.
  intros H. unfold np.linspace.
  destruct (num <? 0) eqn:E; [apply Z.ltb_lt in E; lia|]. eauto.
Qed.

Lemma linspace_Raise (start stop : Q) (num : Z) :
  num < 0 -> np.linspace start stop num = Raise ValueError.
Proof.
  intros H. unfold np.linspace.
  destruct (num <? 0) eqn:E; [reflexivity|apply Z.ltb_ge in E; lia].
Qed.

Lemma linspace_length (start stop : Q) (num : Z) (l : list Q) :
  np.linspace start stop num = Ok l -> length l = Z.to_nat num.
Proof.
  unfold np.linspace. destruct (num <? 0); [discriminate|].
  intros H. injection H as <-.
  destruct (1 <? num); unfold np.set_last;
    rewrite ?length_insert, length_map; apply arange_length.
Qed.

(** Every edge sits on the line from [start] to [stop]. *)
Lemma linspace_lookup (start stop : Q) (num : Z) (l : list Q) (i : nat) (y : Q) :
  np.linspace start stop num = Ok l ->
  l !! i = Some y ->
  (y == start + inject_Z (Z.of_nat i) * ((stop - start) / inject_Z (num - 1)))%Q.
Proof.
  unfold np.linspace. destruct (num <? 0) eqn:Eneg; [discriminate|].
  apply Z.ltb_ge in Eneg. intros H. injection H as <-.
  destruct (1 <? num) eqn:E1.
  - apply Z.ltb_lt in E1. unfold np.set_last. intros H.
    apply list_lookup_insert_Some in H.
    rewrite length_map, arange_length in H.
    destruct H as [(Hi & <- & _) | (_ & H)].
    + replace (Z.of_nat i) with (num - 1) by lia.
      assert (Hnz : ~ (inject_Z (num - 1) == 0)%Q).
      { unfold Qeq. simpl. lia. }
      field. exact Hnz.
    + rewrite lookup_map in H.
      destruct (np.arange num !! i) as [z|] eqn:Ez; simpl in H; [|discriminate].
      apply lookup_arange in Ez. destruct Ez as [-> _].
      injection H as <-. ring.
  - apply Z.ltb_ge in E1. intros H. rewrite lookup_map in H.
    destruct (np.arange num !! i) as [z|] eqn:Ez; simpl in H; [|discriminate].
    apply lookup_arange in Ez. destruct Ez as [-> Hi].
    injection H as <-.
    assert (i = 0%nat) as -> by lia. simpl. ring.
Qed.

Lemma linspace_first (start stop : Q) (num : Z) (l : list Q) (y : Q) :
  np.linspace start stop num = Ok l -> l !! 0%nat = Some y -> (y == start)%Q.
Proof.
  intros H Hy. rewrite (linspace_lookup _ _ _ _ _ _ H Hy). simpl. ring.
Qed.

Lemma linspace_last (start stop : Q) (num : Z) (l : list Q) (y : Q) :
  1 < num ->
  np.linspace start stop num = Ok l ->
  l !! Z.to_nat (num - 1) = Some y -> (y == stop)%Q.
Proof.
  intros Hn H Hy. rewrite (linspace_lookup _ _ _ _ _ _ H Hy).
  rewrite Z2Nat.id by lia.
  assert (Hnz : ~ (inject_Z (num - 1) == 0)%Q).
  { unfold Qeq. simpl. lia. }
  field. exact Hnz.
Qed.

Lemma step_sign (start stop : Q) (num : Z) :
  1 <= num -> (start <= stop)%Q -> (0 <= (stop - start) / inject_Z (num - 1))%Q.
Proof.
  intros Hn H. unfold Qdiv. apply Qmult_le_0_compat; [lra|].
  destruct (Z.eq_dec (num - 1) 0) as [->|Hne]; [discriminate|].
  apply Qlt_le_weak, Qinv_lt_0_compat.
  unfold Qlt. simpl. lia.
Qed.

Lemma nondecreasing_intro (l : list Q) :
  (forall i x y, l !! i = Some x -> l !! S i = Some y -> (x <= y)%Q) ->
  np.nondecreasing l = true.
Proof.
  induction l as [|a l IH]; intros H; [reflexivity|].
  destruct l as [|b l]; [reflexivity|].
  cbn [np.nondecreasing]. apply andb_true_intro. split.
  - apply Qle_bool_iff. apply (H 0%nat); reflexivity.
  - apply IH. intros i x y Hx Hy. apply (H (S i)); assumption.
Qed.

Lemma nonincreasing_intro (l : list Q) :
  (forall i x y, l !! i = Some x -> l !! S i = Some y -> (y <= x)%Q) ->
  np.nonincreasing l = true.
Proof.
  induction l as [|a l IH]; intros H; [reflexivity|].
  destruct l as [|b l]; [reflexivity|].
  cbn [np.nonincreasing]. apply andb_true_intro. split.
  - apply Qle_bool_iff. apply (H 0%nat); reflexivity.
  - apply IH. intros i x y Hx Hy. apply (H (S i)); assumption.
Qed.

Lemma nondecreasing_head (a : Q) (l : list Q) (i : nat) (y : Q) :
  np.nondecreasing (a :: l) = true -> (a :: l) !! i = Some y -> (a <= y)%Q.
Proof.
  revert a i. induction l as [|b l IH]; intros a i H Hy.
  - destruct i; simpl in Hy; [injection Hy as <-; lra|discriminate].
  - cbn [np.nondecreasing] in H. apply andb_prop in H. destruct H as [Hab H].
    apply Qle_bool_iff in Hab.
    destruct i; simpl in Hy; [injection Hy as <-; lra|].
    specialize (IH b i H Hy). lra.
Qed.

Lemma nondecreasing_tail (a : Q) (l : list Q) :
  np.nondecreasing (a :: l) = true -> np.nondecreasing l = true.
Proof.
  destruct l as [|b l]; [reflexivity|].
  cbn [np.nondecreasing]. intros H. apply andb_prop in H. tauto.
Qed.

Lemma nondecreasing_elim (l : list Q) (i j : nat) (x y : Q) :
  np.nondecreasing l = true ->
  l !! i = Some x -> l !! j = Some y -> (i <= j)%nat -> (x <= y)%Q.
Proof.
  revert i j. induction l as [|a l IH]; intros i j H Hx Hy Hij.
  - discriminate.
  - destruct i as [|i].
    + simpl in Hx. injection Hx as <-. eapply nondecreasing_head; eassumption.
    + destruct j as [|j]; [lia|]. simpl in Hx, Hy.
      apply (IH i j); [eapply nondecreasing_tail; eassumption|assumption..|lia].
Qed.

Lemma inject_Z_succ_nat (i : nat) :
  (inject_Z (Z.of_nat (S i)) == inject_Z (Z.of_nat i) + 1)%Q.
Proof.
  rewrite Nat2Z.inj_succ. unfold Z.succ. rewrite inject_Z_plus. reflexivity.
Qed.

Lemma linspace_positive (start stop : Q) (num : Z) (l : list Q) (i : nat) (y : Q) :
  np.linspace start stop num = Ok l -> l !! i = Some y -> 1 <= num.
Proof.
  intros H Hy. apply linspace_length in H. apply lookup_lt_Some in Hy. lia.
Qed.

Lemma linspace_nondecreasing (start stop : Q) (num : Z) (l : list Q) :
  (start <= stop)%Q -> np.linspace start stop num = Ok l ->
  np.nondecreasing l = true.
Proof.
  intros Hle H. apply nondecreasing_intro. intros i x y Hx Hy.
  pose proof (linspace_positive _ _ _ _ _ _ H Hx) as Hn.
  pose proof (step_sign start stop num Hn Hle) as Hs.
  rewrite (linspace_lookup _ _ _ _ _ _ H Hx), (linspace_lookup _ _ _ _ _ _ H Hy).
  rewrite inject_Z_succ_nat.
  set (s := ((stop - start) / inject_Z (num - 1))%Q) in *.
  set (t := inject_Z (Z.of_nat i)). nra.
Qed.

Lemma linspace_nonincreasing (start stop : Q) (num : Z) (l : list Q) :
  (stop <= start)%Q -> np.linspace start stop num = Ok l ->
  np.nonincreasing l = true.
Proof.
  intros Hle H. apply nonincreasing_intro. intros i x y Hx Hy.
  pose proof (linspace_positive _ _ _ _ _ _ H Hx) as Hn.
  pose proof (step_sign stop start num Hn Hle) as Hs.
  rewrite (linspace_lookup _ _ _ _ _ _ H Hx), (linspace_lookup _ _ _ _ _ _ H Hy).
  rewrite inject_Z_succ_nat.
  assert (Hopp : ((stop - start) / inject_Z (num - 1)
                  == - ((start - stop) / inject_Z (num - 1)))%Q).
  { unfold Qdiv. ring. }
  rewrite Hopp.
  set (s := ((start - stop) / inject_Z (num - 1))%Q) in *.
  set (t := inject_Z (Z.of_nat i)). nra.
Qed.

(** ** Digitization *)

Lemma searchsorted_right_le (a : list Q) (v : Q) :
  (np.searchsorted_right a v <= length a)%nat.
Proof.
  induction a as [|x a IH]; simpl; [lia|]. destruct (Qle_bool x v); lia.
Qed.



Lemma searchsorted_right_all (a : list Q) (v : Q) :
  Forall (fun x => (x <= v)%Q) a -> np.searchsorted_right a v = length a.
Proof.
  induction 1 as [|x a Hx _ IH]; simpl; [reflexivity|].
  apply Qle_bool_iff in Hx. rewrite Hx, IH. reflexivity.
Qed.


Lemma digitize_range (x : Q) (bins : list Q) (d : Z) :
  np.digitize x bins = Ok d -> 0 <= d <= Z.of_nat (length bins).
Proof.
  unfold np.digitize. destruct (np.nondecreasing bins).
  - intros H. injection H as <-.
    pose proof (searchsorted_right_le bins x). lia.
  - destruct (np.nonincreasing bins); [|discriminate].
    intros H. injection H as <-. lia.
Qed.

Lemma digitize_edges (num : Z) (bins : list Q) (x : Q) :
  edges num bins ->
  exists d, np.digitize x bins = Ok d /\ 0 <= d <= Z.of_nat (length bins).
Proof.
  intros (start & stop & H).
  assert (Hok : exists d, np.digitize x bins = Ok d).
  { unfold np.digitize. destruct (Qlt_le_dec stop start) as [Hlt|Hle].
    - rewrite (linspace_nonincreasing start stop num bins) by (lra || assumption).
      destruct (np.nondecreasing bins); eauto.
    - rewrite (linspace_nondecreasing start stop num bins) by assumption. eauto. }
  destruct Hok as [d Hd]. exists d. split; [exact Hd|].
  eapply digitize_range; eassumption.
Qed.

(** ** List comprehensions that may raise *)

Lemma traverse_Forall2 {A B : Type} (f : A -> result B) (l : list A) (ys : list B) :
  traverse f l = Ok ys <-> Forall2 (fun x y => f x = Ok y) l ys.
Proof.
  revert ys. induction l as [|x l IH]; intros ys; simpl.
  - split.
    + intros H. injection H as <-. constructor.
    + intros H. inversion H. reflexivity.
  - split.
    + intros H. inv_bind H. inv_bind H. injection H as <-.
      constructor; [assumption|]. apply IH. assumption.
    + intros H. inversion H as [|? y ? ys' Hy Hys]; subst.
      rewrite Hy. simpl. apply IH in Hys. rewrite Hys. reflexivity.
Qed.

Lemma traverse_total {A B : Type} (f : A -> result B) (l : list A) :
  Forall (fun x => exists y, f x = Ok y) l -> exists ys, traverse f l = Ok ys.
Proof.
  induction 1 as [|x l [y Hy] _ [ys IH]]; simpl.
  - eauto.
  - rewrite Hy, IH. simpl. eauto.
Qed.

(** ** The discretizer's constructor *)

Section Constructed.
Import DiscretizedObservationWrapper.

Variables (env : spaces) (nb : Z) (low high : option (list Q)).
Variable w : t.
Hypothesis Hinit : __init__ env nb low high = Ok w.

Lemma init_Box : exists elow ehigh, observation_space env = Box elow ehigh.
Proof.
  unfold __init__ in Hinit. destruct (observation_space env); [eauto|discriminate].
Qed.

Lemma init_n_bins : n_bins w = nb.
Proof.
  unfold __init__ in Hinit. destruct (observation_space env); [|discriminate].
  inv_bind Hinit. injection Hinit as <-. reflexivity.
Qed.

Lemma init_val_bins (elow ehigh : list Q) :
  observation_space env = Box elow ehigh ->
  Forall2 (fun lh bins => np.linspace (fst lh) (snd lh) (nb + 1) = Ok bins)
          (zip (given elow low) (given ehigh high)) (val_bins w).
Proof.
  intros Hbox. unfold __init__ in Hinit. rewrite Hbox in Hinit.
  inv_bind Hinit. injection Hinit as <-. simpl.
  apply traverse_Forall2. assumption.
Qed.

Lemma init_edges : Forall (edges (nb + 1)) (val_bins w).
Proof.
  destruct init_Box as (elow & ehigh & Hbox).
  pose proof (init_val_bins _ _ Hbox) as H.
  induction H as [|[l h] bins ? ? Hb _ IH]; constructor; [|exact IH].
  exists l, h. exact Hb.
Qed.

Lemma edges_length (bins : list Q) :
  0 <= nb -> edges (nb + 1) bins -> Z.of_nat (length bins) = nb + 1.
Proof.
  intros Hnb (a & b & H). apply linspace_length in H. lia.
Qed.

(** The comprehension of [observation] never raises, and yields one
    index in [0 .. n_bins+1] per dimension. *)
Lemma digits_total (obs : list Q) :
  0 <= nb ->
  exists ds, digits w obs = Ok ds /\
             length ds = length (zip obs (val_bins w)) /\
             Forall (fun d => 0 <= d <= nb + 1) ds.
Proof.
  intros Hnb. unfold digits. pose proof init_edges as He.
  revert obs. induction He as [|bins vb Hb _ IH]; intros obs.
  - destruct obs; simpl; exists []; repeat split; constructor.
  - destruct obs as [|x obs]; [exists []; repeat split; constructor|].
    destruct (digitize_edges _ _ x Hb) as (d & Hd & Hr).
    destruct (IH obs) as (ds & Hds & Hlen & Hall).
    exists (d :: ds). cbn [zip zip_with traverse fst snd]. rewrite Hd. simpl.
    rewrite Hds. simpl. repeat split.
    + f_equal. exact Hlen.
    + constructor; [|exact Hall].
      rewrite <- (edges_length bins Hnb Hb). exact Hr.
Qed.
End Constructed.

(** ** Digitizing against linearly spaced edges *)

Section Edges.
Variables (l h : Q) (n : Z) (bins : list Q).
Hypothesis Hbins : np.linspace l h (n + 1) = Ok bins.
Hypothesis Hlh : (l <= h)%Q.

Lemma edges_digitize (x : Q) :
  np.digitize x bins = Ok (Z.of_nat (np.searchsorted_right bins x)).
Proof.
  unfold np.digitize.
  rewrite (linspace_nondecreasing l h (n + 1) bins Hlh Hbins). reflexivity.
Qed.





End Edges.

(** ** Properties of the discretizer *)

(** C3 (as amended). For bin indices [d_0 .. d_(k-1)], each in
    [0 .. n_bins+1], and as long as the number of states [(n_bins+2)^k]
    is at most [2^63], [_convert_to_one_number] returns the
    [np.int64] [sum_i d_i * (n_bins+2)^i], and dimension 0 is the
    least-significant digit: the state modulo the base is [d_0] and the
    state divided by the base encodes the remaining digits. *)
Theorem convert_to_one_number_mixed_radix
  (w : DiscretizedObservationWrapper.t) (ds : list Z) :
  let base := DiscretizedObservationWrapper.n_bins w + 2 in
  Forall (fun d => 0 <= d <= DiscretizedObservationWrapper.n_bins w + 1) ds ->
  base ^ Z.of_nat (length ds) <= 2 ^ 63 ->
  exists state,
    DiscretizedObservationWrapper._convert_to_one_number w ds = np.Int state /\
    state = mixed_radix base 0 ds /\
    forall d0 rest, ds = d0 :: rest ->
      state mod base = d0 /\
      DiscretizedObservationWrapper._convert_to_one_number w rest
      = np.Int (state / base).
Proof.
  intros base Hds Hfit.
  assert (Hr : Forall (fun d => 0 <= d < base) ds).
  { eapply Forall_impl; [exact Hds|]. simpl. unfold base. intros; lia. }
  exists (mixed_radix base 0 ds).
  split; [apply convert_mixed_radix; [reflexivity|assumption..]|]. split; [reflexivity|].
  intros d0 rest ->. rewrite mixed_radix_cons.
  inversion Hr as [|? ? Hd0 Hrest]; subst.
  assert (Hm : (d0 + base * mixed_radix base 0 rest) mod base = d0).
  { symmetry. apply Z.mod_unique_pos with (q := mixed_radix base 0 rest); lia. }
  assert (Hq : (d0 + base * mixed_radix base 0 rest) / base = mixed_radix base 0 rest).
  { symmetry. apply Z.div_unique_pos with (r := d0); lia. }
  split; [exact Hm|]. rewrite Hq. apply convert_mixed_radix; [reflexivity|exact Hrest|].
  etransitivity; [|exact Hfit]. apply Z.pow_le_mono_r; [lia|]. simpl. lia.
Qed.

Lemma convert_to_one_number_mixed_radix_witness :
  let w := {| DiscretizedObservationWrapper.n_bins := 8;
              DiscretizedObservationWrapper.val_bins := [];
              DiscretizedObservationWrapper.wrapped_observation_space := Discrete 10000;
              DiscretizedObservationWrapper.wrapped_action_space := Discrete 2 |} in
  Forall (fun d => 0 <= d <= 8 + 1) [3; 0; 9; 1] /\
  (8 + 2) ^ Z.of_nat (length [3; 0; 9; 1]) <= 2 ^ 63 /\
  exists state,
    DiscretizedObservationWrapper._convert_to_one_number w [3; 0; 9; 1] = np.Int state /\
    state = mixed_radix 10 0 [3; 0; 9; 1].
Proof.
  intros w.
  assert (H : Forall (fun d => 0 <= d <= 8 + 1) [3; 0; 9; 1]).
  { repeat constructor; lia. }
  assert (Hfit : (8 + 2) ^ Z.of_nat (length [3; 0; 9; 1]) <= 2 ^ 63).
  { rewrite two_63. simpl. lia. }
  split; [exact H|]. split; [exact Hfit|].
  destruct (convert_to_one_number_mixed_radix w [3; 0; 9; 1] H Hfit)
    as (state & Hstate & Heq & _).
  exists state. split; [exact Hstate|exact Heq].
Defined.

(** Without the bound the claim fails: with [n_bins = 8], nineteen digits
    9 stand for [10^19 - 1], which is above [2^63 - 1]; the [np.int64]
    sum wraps around to [10^19 - 1 - 2^64 = -8446744073709551617], a
    negative state whose remainder modulo 10 is 3 and not the digit 9. *)
Lemma convert_to_one_number_wraps :
  let w := {| DiscretizedObservationWrapper.n_bins := 8;
              DiscretizedObservationWrapper.val_bins := [];
              DiscretizedObservationWrapper.wrapped_observation_space := Discrete 10000;
              DiscretizedObservationWrapper.wrapped_action_space := Discrete 2 |} in
  let ds := replicate 19 9 in
  Forall (fun d => 0 <= d <= 8 + 1) ds /\
  mixed_radix (8 + 2) 0 ds = 10 ^ 19 - 1 /\
  DiscretizedObservationWrapper._convert_to_one_number w ds
  = np.Int (-8446744073709551617) /\
  -8446744073709551617 = 10 ^ 19 - 1 - 2 ^ 64 /\
  (-8446744073709551617) mod (8 + 2) = 3.
Proof.
  intros w ds. split; [repeat constructor; lia|].
  repeat split; vm_compute; reflexivity.
Qed.

(** C6 (as amended). On a constructed discretizer with [n_bins >= 0], for
    a vector with one component per dimension, whatever the component
    values: the digitization never raises and gives one bin index in
    [0 .. n_bins+1] per dimension; and as long as the number of states
    [(n_bins+2)^d] is at most [2^63], [observation] returns an
    [np.int64] state in [0 .. (n_bins+2)^d - 1]. *)
Theorem observation_total_in_range
  (env : spaces) (nb : Z) (low high : option (list Q))
  (w : DiscretizedObservationWrapper.t) (obs : list Q) :
  DiscretizedObservationWrapper.__init__ env nb low high = Ok w ->
  0 <= nb ->
  length obs = length (DiscretizedObservationWrapper.val_bins w) ->
  (exists ds, DiscretizedObservationWrapper.digits w obs = Ok ds /\
              length ds = length obs /\
              Forall (fun d => 0 <= d <= nb + 1) ds) /\
  ((nb + 2) ^ Z.of_nat (length obs) <= 2 ^ 63 ->
   exists s, DiscretizedObservationWrapper.observation w obs = Ok (np.Int s) /\
             0 <= s <= (nb + 2) ^ Z.of_nat (length obs) - 1).
Proof.
  intros Hinit Hnb Hlen.
  destruct (digits_total env nb low high w Hinit obs Hnb) as (ds & Hds & Hl & Hall).
  rewrite length_zip_with in Hl.
  assert (Hk : length ds = length obs) by lia.
  split; [exists ds; auto|].
  intros Hfit.
  unfold DiscretizedObservationWrapper.observation. rewrite Hds. simpl.
  assert (Hr : Forall (fun d => 0 <= d < nb + 2) ds).
  { eapply Forall_impl; [exact Hall|]. simpl. intros; lia. }
  pose proof (init_n_bins env nb low high w Hinit) as Hnbw.
  rewrite (convert_mixed_radix w (nb + 2) ds);
    [|rewrite Hnbw; reflexivity|exact Hr|rewrite Hk; exact Hfit].
  eexists. split; [reflexivity|]. rewrite <- Hk.
  pose proof (mixed_radix_range (nb + 2) ds ltac:(lia) Hr). lia.
Qed.

Lemma observation_total_in_range_witness :
  let env := box_spaces in
  exists w s,
    DiscretizedObservationWrapper.__init__ env 8 (Some [-2; -1]%Q) (Some [2; 1]%Q) = Ok w /\
    DiscretizedObservationWrapper.observation w [1000000; -1000000]%Q = Ok (np.Int s) /\
    0 <= s <= (8 + 2) ^ Z.of_nat 2 - 1.
Proof.
  intros env.
  eassert (Hinit : DiscretizedObservationWrapper.__init__ env 8
                     (Some [-2; -1]%Q) (Some [2; 1]%Q) = Ok _).
  { vm_compute. reflexivity. }
  destruct (observation_total_in_range env 8 _ _ _ [1000000; -1000000]%Q Hinit
              ltac:(lia) eq_refl) as [_ Hstate].
  destruct (Hstate ltac:(rewrite two_63; simpl; lia)) as (s & Hs & Hr).
  eexists. exists s. split; [exact Hinit|]. split; [exact Hs|exact Hr].
Defined.

(** Without the bound the claim fails: with [n_bins = 8] and 19
    dimensions there are [10^19] states, more than [2^63]; a vector above
    the upper bound in every dimension has the bin index 9 everywhere, and
    the state returned is the negative [np.int64] [10^19 - 1 - 2^64]. *)
Lemma observation_out_of_range :
  let obs := replicate 19 100%Q in
  exists w,
    DiscretizedObservationWrapper.__init__ (cube 19) 8 None None = Ok w /\
    length obs = length (DiscretizedObservationWrapper.val_bins w) /\
    DiscretizedObservationWrapper.digits w obs = Ok (replicate 19 9) /\
    DiscretizedObservationWrapper.observation w obs
    = Ok (np.Int (-8446744073709551617)) /\
    ~ (0 <= -8446744073709551617 <= (8 + 2) ^ Z.of_nat (length obs) - 1).
Proof.
  intros obs. eexists. split; [vm_compute; reflexivity|].
  split; [reflexivity|]. split; [vm_compute; reflexivity|].
  split; [vm_compute; reflexivity|]. lia.
Qed.

Lemma init_bins_lookup
  (env : spaces) (elow ehigh : list Q) (nb : Z) (low high : option (list Q))
  (w : DiscretizedObservationWrapper.t) (i : nat) (l h : Q) (bins : list Q) :
  observation_space env = Box elow ehigh ->
  DiscretizedObservationWrapper.__init__ env nb low high = Ok w ->
  DiscretizedObservationWrapper.given elow low !! i = Some l ->
  DiscretizedObservationWrapper.given ehigh high !! i = Some h ->
  DiscretizedObservationWrapper.val_bins w !! i = Some bins ->
  np.linspace l h (nb + 1) = Ok bins.
Proof.
  intros Hbox Hinit Hl Hh Hb.
  pose proof (init_val_bins env nb low high w Hinit elow ehigh Hbox) as Hvb.
  assert (Hz : zip (DiscretizedObservationWrapper.given elow low)
                   (DiscretizedObservationWrapper.given ehigh high) !! i = Some (l, h)).
  { rewrite lookup_zip_with, Hl. simpl. rewrite Hh. reflexivity. }
  destruct (Forall2_lookup_l _ _ _ _ _ Hvb Hz) as (b' & Hb' & Hlin).
  rewrite Hb in Hb'. injection Hb' as <-. exact Hlin.
Qed.

Lemma digits_lookup
  (w : DiscretizedObservationWrapper.t) (obs : list Q) (ds : list Z)
  (i : nat) (x : Q) (bins : list Q) (d : Z) :
  DiscretizedObservationWrapper.digits w obs = Ok ds ->
  obs !! i = Some x ->
  DiscretizedObservationWrapper.val_bins w !! i = Some bins ->
  ds !! i = Some d ->
  np.digitize x bins = Ok d.
Proof.
  intros Hds Hx Hb Hd. apply traverse_Forall2 in Hds.
  assert (Hz : zip obs (DiscretizedObservationWrapper.val_bins w) !! i = Some (x, bins)).
  { rewrite lookup_zip_with, Hx. simpl. rewrite Hb. reflexivity. }
  destruct (Forall2_lookup_l _ _ _ _ _ Hds Hz) as (d' & Hd' & Hdig).
  rewrite Hd in Hd'. injection Hd' as <-. exact Hdig.
Qed.







(** ** Indexing the value table *)

Lemma index_valid (n : nat) (i : Z) :
  0 <= i < Z.of_nat n -> np.index n i = Ok (Z.to_nat i).
Proof.
  intros H. unfold np.index.
  destruct (0 <=? i) eqn:E1; [|apply Z.leb_gt in E1; lia].
  destruct (i <? Z.of_nat n) eqn:E2; [|apply Z.ltb_ge in E2; lia].
  reflexivity.
Qed.

Lemma index_lt (n : nat) (i : Z) (k : nat) : np.index n i = Ok k -> (k < n)%nat.
Proof.
  unfold np.index.
  destruct ((0 <=? i) && (i <? Z.of_nat n)) eqn:E.
  - apply andb_prop in E. destruct E as [E1 E2].
    apply Z.leb_le in E1. apply Z.ltb_lt in E2. intros H. injection H as <-. lia.
  - destruct ((- Z.of_nat n <=? i) && (i <? 0)) eqn:E'; [|discriminate].
    apply andb_prop in E'. destruct E' as [E1 E2].
    apply Z.leb_le in E1. apply Z.ltb_lt in E2. intros H. injection H as <-. lia.
Qed.

Lemma index_nonneg (n : nat) (i : Z) (k : nat) :
  0 <= i -> np.index n i = Ok k -> k = Z.to_nat i /\ i < Z.of_nat n.
Proof.
  intros Hi. unfold np.index.
  destruct ((0 <=? i) && (i <? Z.of_nat n)) eqn:E.
  - apply andb_prop in E. destruct E as [_ E2]. apply Z.ltb_lt in E2.
    intros H. injection H as <-. split; [reflexivity|lia].
  - destruct (i <? 0) eqn:E'; [apply Z.ltb_lt in E'; lia|].
    rewrite andb_false_r. discriminate.
Qed.

Lemma row_valid (tab : list (list Q)) (i : Z) (r : list Q) :
  0 <= i -> tab !! Z.to_nat i = Some r -> np.row tab i = Ok r.
Proof.
  intros Hi Hr. unfold np.row.
  rewrite index_valid by (apply lookup_lt_Some in Hr; lia).
  simpl. rewrite Hr. reflexivity.
Qed.

Lemma row_nonneg (tab : list (list Q)) (i : Z) (r : list Q) :
  0 <= i -> np.row tab i = Ok r -> tab !! Z.to_nat i = Some r.
Proof.
  intros Hi H. unfold np.row in H. inv_bind H.
  apply index_nonneg in Hv; [|exact Hi]. destruct Hv as [-> _].
  destruct (tab !! Z.to_nat i); [injection H as <-; reflexivity|discriminate].
Qed.

Lemma get_valid (tab : list (list Q)) (i j : Z) (q : Q) :
  0 <= i -> 0 <= j ->
  cell tab (Z.to_nat i) (Z.to_nat j) = Some q -> np.get tab i j = Ok q.
Proof.
  intros Hi Hj. unfold cell, np.get.
  destruct (tab !! Z.to_nat i) as [r|] eqn:Er; [|discriminate].
  intros Hq. rewrite (row_valid tab i r Hi Er). simpl.
  rewrite index_valid by (apply lookup_lt_Some in Hq; lia).
  simpl. rewrite Hq. reflexivity.
Qed.

Lemma get_nonneg (tab : list (list Q)) (i j : Z) (q : Q) :
  0 <= i -> 0 <= j ->
  np.get tab i j = Ok q -> cell tab (Z.to_nat i) (Z.to_nat j) = Some q.
Proof.
  intros Hi Hj H. unfold np.get in H. unbind H as r Hr.
  apply row_nonneg in Hr; [|exact Hi]. unbind H as k Hk.
  apply index_nonneg in Hk; [|exact Hj]. destruct Hk as [-> _].
  unfold cell. rewrite Hr.
  destruct (r !! Z.to_nat j); [injection H as <-; reflexivity|discriminate].
Qed.

Lemma set_valid (tab : list (list Q)) (i j : Z) (v : Q) (r : list Q) :
  0 <= i -> 0 <= j ->
  tab !! Z.to_nat i = Some r -> (Z.to_nat j < length r)%nat ->
  np.set tab i j v = Ok (<[Z.to_nat i := <[Z.to_nat j := v]> r]> tab).
Proof.
  intros Hi Hj Hr Hlt. unfold np.set.
  rewrite index_valid by (apply lookup_lt_Some in Hr; lia).
  simpl. rewrite Hr. rewrite index_valid by lia. reflexivity.
Qed.

Lemma set_nonneg (tab tab' : list (list Q)) (i j : Z) (v : Q) :
  0 <= i -> 0 <= j ->
  np.set tab i j v = Ok tab' ->
  exists r, tab !! Z.to_nat i = Some r /\ (Z.to_nat j < length r)%nat /\
            tab' = <[Z.to_nat i := <[Z.to_nat j := v]> r]> tab.
Proof.
  intros Hi Hj H. unfold np.set in H. unbind H as ki Hki.
  apply index_nonneg in Hki; [|exact Hi]. destruct Hki as [-> _].
  destruct (tab !! Z.to_nat i) as [r|] eqn:Er; [|discriminate].
  unbind H as kj Hkj. pose proof (index_lt _ _ _ Hkj) as Hlt.
  apply index_nonneg in Hkj; [|exact Hj]. destruct Hkj as [-> _].
  injection H as <-. exists r. auto.
Qed.

Lemma cell_insert_same (tab : list (list Q)) (i j : nat) (r : list Q) (v : Q) :
  tab !! i = Some r -> (j < length r)%nat ->
  cell (<[i := <[j := v]> r]> tab) i j = Some v.
Proof.
  intros Hr Hj. unfold cell.
  rewrite list_lookup_insert_eq by (apply lookup_lt_Some in Hr; exact Hr).
  apply list_lookup_insert_eq. exact Hj.
Qed.

Lemma cell_insert_other (tab : list (list Q)) (i j i' j' : nat) (r : list Q) (v : Q) :
  tab !! i = Some r -> (i', j') <> (i, j) ->
  cell (<[i := <[j := v]> r]> tab) i' j' = cell tab i' j'.
Proof.
  intros Hr Hne. unfold cell.
  destruct (decide (i = i')) as [<-|Hi].
  - rewrite list_lookup_insert_eq by (apply lookup_lt_Some in Hr; exact Hr).
    rewrite Hr. apply list_lookup_insert_ne. congruence.
  - rewrite list_lookup_insert_ne by exact Hi. reflexivity.
Qed.

(** ** The maximum of a row *)

Lemma running_max (r : list Q) (x : Q) :
  let m := fold_left (fun m y => if Qlt_bool m y then y else m) r x in
  (m = x \/ In m r) /\ (x <= m)%Q /\ forall y, In y r -> (y <= m)%Q.
Proof.
  revert x. induction r as [|z r IH]; intros x; simpl.
  - split; [left; reflexivity|]. split; [lra|]. intros y [].
  - destruct (Qlt_bool x z) eqn:E.
    + apply Qlt_bool_iff in E. destruct (IH z) as (Hin & Hle & Hall).
      split; [right; destruct Hin as [->|Hin]; auto|].
      split; [lra|]. intros y [<-|Hy]; auto.
    + apply Qlt_bool_false in E. destruct (IH x) as (Hin & Hle & Hall).
      split; [destruct Hin as [->|Hin]; auto|].
      split; [lra|]. intros y [<-|Hy]; [lra|auto].
Qed.

Lemma max_maximum (r : list Q) (m : Q) : np.max (a_gtb exact) r = Ok m -> maximum m r.
Proof.
  destruct r as [|x r]; simpl; [discriminate|].
  intros H. injection H as <-.
  destruct (running_max r x) as (Hin & Hle & Hall). split.
  - destruct Hin as [->|Hin]; [left; reflexivity|right; exact Hin].
  - intros y [<-|Hy]; [exact Hle|apply Hall; exact Hy].
Qed.

Lemma max_total (r : list Q) : r <> [] -> exists m, np.max (a_gtb exact) r = Ok m.
Proof. destruct r as [|x r]; [congruence|]. simpl. eauto. Qed.

(** ** The shape of the table *)

Lemma shaped_cell (tab : list (list Q)) (ns na s a : Z) :
  shaped tab ns na -> 0 <= s < ns -> 0 <= a < na ->
  exists r q, tab !! Z.to_nat s = Some r /\ Z.of_nat (length r) = na /\
              r !! Z.to_nat a = Some q.
Proof.
  intros [Hn Hrows] Hs Ha.
  destruct (lookup_lt_is_Some_2 tab (Z.to_nat s)) as [r Hr]; [lia|].
  pose proof (Forall_lookup_1 _ _ _ _ Hrows Hr) as Hlen. simpl in Hlen.
  destruct (lookup_lt_is_Some_2 r (Z.to_nat a)) as [q Hq]; [lia|].
  exists r, q. auto.
Qed.

Lemma zeros_shaped (ns na : Z) (tab : list (list Q)) :
  np.zeros ns na = Ok tab -> shaped tab ns na.
Proof.
  unfold np.zeros. destruct ((ns <? 0) || (na <? 0)) eqn:E; [discriminate|].
  apply orb_false_elim in E. destruct E as [E1 E2].
  apply Z.ltb_ge in E1. apply Z.ltb_ge in E2.
  intros H. injection H as <-. split.
  - rewrite length_replicate. lia.
  - apply Forall_replicate. rewrite length_replicate. lia.
Qed.

Lemma zeros_zero (ns na : Z) (tab : list (list Q)) :
  np.zeros ns na = Ok tab -> Forall (Forall (fun c => c = 0%Q)) tab.
Proof.
  unfold np.zeros. destruct ((ns <? 0) || (na <? 0)); [discriminate|].
  intros H. injection H as <-.
  apply Forall_replicate, Forall_replicate. reflexivity.
Qed.

Lemma init_shaped (env : spaces) (g al ad e ef : Q) (p : QLearnPolicy.t) :
  QLearnPolicy.__init__ env g al ad e ef = Ok p ->
  shaped (QLearnPolicy.Qtab p) (QLearnPolicy.n_states p) (QLearnPolicy.n_actions p) /\
  Forall (Forall (fun c => c = 0%Q)) (QLearnPolicy.Qtab p).
Proof.
  unfold QLearnPolicy.__init__.
  destruct (action_space env) as [|na]; [discriminate|].
  destruct (observation_space env) as [|ns]; [discriminate|].
  intros H. unbind H as tab Htab. injection H as <-. simpl.
  split; [apply zeros_shaped|apply (zeros_zero ns na)]; exact Htab.
Qed.

(** ** The update rule *)

(** The update of the learner is the update of its table, in exact
    arithmetic, with the steps of the source in their order. *)
Lemma update_q_value_body (self : QLearnPolicy.t) (state action new_state : Z)
  (reward : Q) (done : bool) :
  QLearnPolicy._update_q_value self state action new_state reward done
  = if done then
      q <- np.get (QLearnPolicy.Qtab self) state action ;;
      tab <- np.set (QLearnPolicy.Qtab self) state action
               (updated exact (QLearnPolicy.alpha self) q reward) ;;
      Ok (QLearnPolicy.set_Q self tab)
    else
      r <- np.row (QLearnPolicy.Qtab self) new_state ;;
      max_q_next <- np.max (a_gtb exact) r ;;
      q <- np.get (QLearnPolicy.Qtab self) state action ;;
      tab <- np.set (QLearnPolicy.Qtab self) state action
               (updated exact (QLearnPolicy.alpha self) q
                  (bootstrap exact (QLearnPolicy.gamma self) reward max_q_next)) ;;
      Ok (QLearnPolicy.set_Q self tab).
Proof.
  unfold QLearnPolicy._update_q_value, update_table. destruct done; simpl.
  - destruct (np.get _ _ _); reflexivity.
  - destruct (np.row _ _); simpl; try reflexivity.
    destruct (np.max _ _); simpl; try reflexivity.
    destruct (np.get _ _ _); reflexivity.
Qed.

Section Update.
Import QLearnPolicy.
Variables (p : t) (s a : Z).
Hypothesis Hs : 0 <= s.
Hypothesis Ha : 0 <= a.

(** The value written by an update towards [target]. *)
Let moved (q target : Q) : Q := (q + alpha p * (target - q))%Q.

Let written (r : list Q) (v : Q) : t :=
  set_Q p (<[Z.to_nat s := <[Z.to_nat a := v]> r]> (Qtab p)).

Lemma update_terminal (s' : Z) (reward : Q) (r : list Q) (q : Q) :
  Qtab p !! Z.to_nat s = Some r -> r !! Z.to_nat a = Some q ->
  _update_q_value p s a s' reward true = Ok (written r (moved q reward)).
Proof.
  intros Hr Hq. rewrite update_q_value_body.
  rewrite (get_valid (Qtab p) s a q Hs Ha) by (unfold cell; rewrite Hr; exact Hq).
  simpl.
  rewrite (set_valid (Qtab p) s a _ r Hs Ha Hr) by (apply lookup_lt_Some in Hq; exact Hq).
  reflexivity.
Qed.

Lemma update_nonterminal (s' : Z) (reward : Q) (r nr : list Q) (q m : Q) :
  Qtab p !! Z.to_nat s = Some r -> r !! Z.to_nat a = Some q ->
  np.row (Qtab p) s' = Ok nr -> np.max (a_gtb exact) nr = Ok m ->
  _update_q_value p s a s' reward false
  = Ok (written r (moved q (reward + gamma p * m))).
Proof.
  intros Hr Hq Hnr Hm. rewrite update_q_value_body.
  rewrite Hnr. cbn [bind]. rewrite Hm. cbn [bind].
  rewrite (get_valid (Qtab p) s a q Hs Ha) by (unfold cell; rewrite Hr; exact Hq).
  simpl.
  rewrite (set_valid (Qtab p) s a _ r Hs Ha Hr) by (apply lookup_lt_Some in Hq; exact Hq).
  reflexivity.
Qed.

(** Whatever call returns normally has read the cell and written the
    moved value back. *)
Lemma update_inv (s' : Z) (reward : Q) (done : bool) (p' : t) :
  _update_q_value p s a s' reward done = Ok p' ->
  exists r q target,
    Qtab p !! Z.to_nat s = Some r /\ r !! Z.to_nat a = Some q /\
    p' = written r (moved q target) /\
    (if done then target = reward
     else exists nr m, np.row (Qtab p) s' = Ok nr /\ np.max (a_gtb exact) nr = Ok m /\
                       target = (reward + gamma p * m)%Q).
Proof.
  rewrite update_q_value_body. destruct done; intros H.
  - unbind H as q Hq. unbind H as tab Htab. injection H as <-.
    apply get_nonneg in Hq; [|assumption..].
    apply set_nonneg in Htab; [|assumption..].
    destruct Htab as (r & Hr & _ & ->). unfold cell in Hq. rewrite Hr in Hq.
    exists r, q, reward. auto.
  - unbind H as nr Hnr. unbind H as m Hm. unbind H as q Hq.
    unbind H as tab Htab. injection H as <-.
    apply get_nonneg in Hq; [|assumption..].
    apply set_nonneg in Htab; [|assumption..].
    destruct Htab as (r & Hr & _ & ->). unfold cell in Hq. rewrite Hr in Hq.
    exists r, q, (reward + gamma p * m)%Q. repeat split; eauto.
Qed.

Lemma written_cell (r : list Q) (q v : Q) :
  Qtab p !! Z.to_nat s = Some r -> r !! Z.to_nat a = Some q ->
  cell (Qtab (written r v)) (Z.to_nat s) (Z.to_nat a) = Some v.
Proof.
  intros Hr Hq. simpl. apply cell_insert_same; [exact Hr|].
  apply lookup_lt_Some in Hq. exact Hq.
Qed.

Lemma written_other (r : list Q) (v : Q) (i j : nat) :
  Qtab p !! Z.to_nat s = Some r -> (i, j) <> (Z.to_nat s, Z.to_nat a) ->
  cell (Qtab (written r v)) i j = cell (Qtab p) i j.
Proof. intros Hr Hne. simpl. apply cell_insert_other; assumption. Qed.
End Update.

(** C1 (as amended). In exact arithmetic, on a table of the learner's
    shape and for in-range [state] and [action] with current cell value
    [q]: a terminal update returns and leaves [q + alpha * (reward - q)] in the
    cell; a non-terminal update that returns has read the row of the next
    state, and leaves [q + alpha * (reward + gamma * m - q)] in the cell,
    where [m] is the maximum of that row (and it does return whenever that
    row exists and is not empty); from an all-zero table, a terminal update
    leaves [alpha * reward] in the cell. *)
Theorem update_q_value_rule
  (p : QLearnPolicy.t) (state action new_state : Z) (reward : Q) :
  shaped (QLearnPolicy.Qtab p) (QLearnPolicy.n_states p) (QLearnPolicy.n_actions p) ->
  0 <= state < QLearnPolicy.n_states p ->
  0 <= action < QLearnPolicy.n_actions p ->
  let at_cell (x : QLearnPolicy.t) :=
    cell (QLearnPolicy.Qtab x) (Z.to_nat state) (Z.to_nat action) in
  exists q, at_cell p = Some q /\
  (exists p',
      QLearnPolicy._update_q_value p state action new_state reward true = Ok p' /\
      at_cell p' = Some (q + QLearnPolicy.alpha p * (reward - q))%Q) /\
  (forall p',
      QLearnPolicy._update_q_value p state action new_state reward false = Ok p' ->
      exists nr m,
        np.row (QLearnPolicy.Qtab p) new_state = Ok nr /\ maximum m nr /\
        at_cell p' =
          Some (q + QLearnPolicy.alpha p
                    * (reward + QLearnPolicy.gamma p * m - q))%Q) /\
  (forall nr,
      np.row (QLearnPolicy.Qtab p) new_state = Ok nr -> nr <> [] ->
      exists p',
        QLearnPolicy._update_q_value p state action new_state reward false = Ok p') /\
  (Forall (Forall (fun c => c = 0%Q)) (QLearnPolicy.Qtab p) ->
   exists p' v,
      QLearnPolicy._update_q_value p state action new_state reward true = Ok p' /\
      at_cell p' = Some v /\ (v == QLearnPolicy.alpha p * reward)%Q).
Proof.
  intros Hshape Hs Ha at_cell.
  destruct (shaped_cell _ _ _ _ _ Hshape Hs Ha) as (r & q & Hr & _ & Hq).
  assert (Hs0 : 0 <= state) by lia. assert (Ha0 : 0 <= action) by lia.
  exists q. split; [unfold at_cell, cell; rewrite Hr; exact Hq|].
  split; [|split; [|split]].
  - eexists. split; [apply (update_terminal p state action Hs0 Ha0 _ _ r q Hr Hq)|].
    apply (written_cell p state action r q _ Hr Hq).
  - intros p' Hup.
    destruct (update_inv p state action Hs0 Ha0 _ _ _ _ Hup)
      as (r' & q' & target & Hr' & Hq' & -> & nr & m & Hnr & Hm & ->).
    rewrite Hr in Hr'. injection Hr' as <-. rewrite Hq in Hq'. injection Hq' as <-.
    exists nr, m. split; [exact Hnr|]. split; [apply max_maximum; exact Hm|].
    apply (written_cell p state action r q _ Hr Hq).
  - intros nr Hnr Hne. destruct (max_total nr Hne) as [m Hm].
    eexists. apply (update_nonterminal p state action Hs0 Ha0 _ _ r nr q m); assumption.
  - intros Hzero.
    assert (Hq0 : q = 0%Q).
    { pose proof (Forall_lookup_1 _ _ _ _ Hzero Hr) as Hrow.
      exact (Forall_lookup_1 _ _ _ _ Hrow Hq). }
    eexists. eexists.
    split; [apply (update_terminal p state action Hs0 Ha0 _ _ r q Hr Hq)|].
    split; [apply (written_cell p state action r q _ Hr Hq)|].
    rewrite Hq0. ring.
Qed.

(** C9. An update on in-range [state] and [action] that returns leaves
    every other cell of the table, the table's shape and all
    hyperparameters as they were; a terminal update does not depend on the
    next state at all, and returns for every next state. *)
Theorem update_q_value_frame
  (p : QLearnPolicy.t) (state action : Z) (reward : Q) :
  shaped (QLearnPolicy.Qtab p) (QLearnPolicy.n_states p) (QLearnPolicy.n_actions p) ->
  0 <= state < QLearnPolicy.n_states p ->
  0 <= action < QLearnPolicy.n_actions p ->
  (forall new_state done p',
      QLearnPolicy._update_q_value p state action new_state reward done = Ok p' ->
      (forall i j, (i, j) <> (Z.to_nat state, Z.to_nat action) ->
                   cell (QLearnPolicy.Qtab p') i j = cell (QLearnPolicy.Qtab p) i j) /\
      shaped (QLearnPolicy.Qtab p') (QLearnPolicy.n_states p) (QLearnPolicy.n_actions p) /\
      QLearnPolicy.gamma p' = QLearnPolicy.gamma p /\
      QLearnPolicy.alpha p' = QLearnPolicy.alpha p /\
      QLearnPolicy.epsilon p' = QLearnPolicy.epsilon p /\
      QLearnPolicy.alpha_decay p' = QLearnPolicy.alpha_decay p /\
      QLearnPolicy.epsilon_final p' = QLearnPolicy.epsilon_final p /\
      QLearnPolicy.n_states p' = QLearnPolicy.n_states p /\
      QLearnPolicy.n_actions p' = QLearnPolicy.n_actions p) /\
  (forall s1 s2,
      QLearnPolicy._update_q_value p state action s1 reward true
      = QLearnPolicy._update_q_value p state action s2 reward true) /\
  (exists p', forall new_state,
      QLearnPolicy._update_q_value p state action new_state reward true = Ok p').
Proof.
  intros Hshape Hs Ha.
  assert (Hs0 : 0 <= state) by lia. assert (Ha0 : 0 <= action) by lia.
  split; [|split].
  - intros new_state done p' Hup.
    destruct (update_inv p state action Hs0 Ha0 _ _ _ _ Hup)
      as (r & q & target & Hr & Hq & -> & _).
    split; [intros i j Hne; apply (written_other p state action r _ i j Hr Hne)|].
    split; [|simpl; auto 10].
    simpl. destruct Hshape as [Hn Hrows]. split.
    + rewrite length_insert. exact Hn.
    + apply Forall_insert; [exact Hrows|].
      rewrite length_insert. exact (Forall_lookup_1 _ _ _ _ Hrows Hr).
  - reflexivity.
  - destruct (shaped_cell _ _ _ _ _ Hshape Hs Ha) as (r & q & Hr & _ & Hq).
    eexists. intros new_state.
    apply (update_terminal p state action Hs0 Ha0 _ _ r q Hr Hq).
Qed.

Lemma update_q_value_rule_witness :
  exists p p' v,
    QLearnPolicy.__init__ toy_spaces (99 # 100) (1 # 2) (998 # 1000) 1 (5 # 100) = Ok p /\
    QLearnPolicy._update_q_value p 1 0 2 1 true = Ok p' /\
    cell (QLearnPolicy.Qtab p') 1 0 = Some v /\ (v == (1 # 2) * 1)%Q.
Proof.
  eassert (Hinit : QLearnPolicy.__init__ toy_spaces (99 # 100) (1 # 2) (998 # 1000)
                     1 (5 # 100) = Ok _).
  { vm_compute. reflexivity. }
  destruct (init_shaped _ _ _ _ _ _ _ Hinit) as [Hshape Hzero].
  destruct (update_q_value_rule _ 1 0 2 1 Hshape ltac:(simpl; lia) ltac:(simpl; lia))
    as (q & _ & _ & _ & _ & Hz).
  destruct (Hz Hzero) as (p' & v & Hup & Hcell & Hv).
  eexists. exists p', v. split; [exact Hinit|]. split; [exact Hup|].
  split; [exact Hcell|exact Hv].
Defined.

(** In the arithmetic of the program the claim fails: the right-hand side
    is computed in binary64 and the sum is rounded to float32 when it is
    stored in the table.  From a zero cell, a terminal update with
    [alpha = 1] and [reward = 0.1] leaves [0.100000001490116...], the
    float32 nearest to 0.1, and not [alpha * reward]; with the program's
    own [alpha = 0.5] and [gamma = 0.99], a non-terminal update of a zero
    cell with reward 1 and a next-state maximum of 0.5 leaves
    [0.74750000238...], and not the binary64 value [0.7475] of the
    rule. *)
Lemma update_rounds_to_float32 :
  (let alpha := 1%float in
   let gamma := 0x1.fae147ae147aep-1%float in
   let reward := 0x1.999999999999ap-4%float in
   let Q := replicate 3 (replicate 2 0%float) in
   let cell := 0x1.99999ap-4%float in
   update_table binary64 Q alpha gamma 1 0 2 reward true
   = Ok [[0; 0]; [cell; 0]; [0; 0]]%float /\
   updated binary64 alpha 0%float reward = cell /\
   PrimFloat.eqb cell (alpha * reward)%float = false /\
   PrimFloat.ltb (alpha * reward)%float cell = true) /\
  (let alpha := 0.5%float in
   let gamma := 0x1.fae147ae147aep-1%float in
   let Q := [[0; 0]; [0; 0]; [0.25; 0.5]]%float in
   let rule := (0 + alpha * (1 + gamma * 0.5 - 0))%float in
   let cell := 0x1.7eb852p-1%float in
   update_table binary64 Q alpha gamma 1 0 2 1%float false
   = Ok [[0; 0]; [cell; 0]; [0.25; 0.5]]%float /\
   updated binary64 alpha 0%float (bootstrap binary64 gamma 1%float 0.5%float) = cell /\
   rule = 0x1.7eb851eb851ecp-1%float /\
   PrimFloat.eqb cell rule = false).
Proof.
  split; repeat split; vm_compute; reflexivity.
Qed.

Lemma update_q_value_frame_witness :
  exists p p',
    QLearnPolicy.__init__ toy_spaces (99 # 100) (1 # 2) (998 # 1000) 1 (5 # 100) = Ok p /\
    (forall new_state, QLearnPolicy._update_q_value p 1 0 new_state 1 true = Ok p') /\
    cell (QLearnPolicy.Qtab p') 2 1 = cell (QLearnPolicy.Qtab p) 2 1.
Proof.
  eassert (Hinit : QLearnPolicy.__init__ toy_spaces (99 # 100) (1 # 2) (998 # 1000)
                     1 (5 # 100) = Ok _).
  { vm_compute. reflexivity. }
  destruct (init_shaped _ _ _ _ _ _ _ Hinit) as [Hshape _].
  destruct (update_q_value_frame _ 1 0 1 Hshape ltac:(simpl; lia) ltac:(simpl; lia))
    as (Hframe & _ & p' & Hup).
  eexists. exists p'. split; [exact Hinit|]. split; [exact Hup|].
  destruct (Hframe 0 true p' (Hup 0)) as [Hother _].
  apply Hother. intros H. vm_compute in H. discriminate H.
Defined.

(** ** Boundedness of the table *)

(** An update that returns, at arbitrary (possibly negative) indices. *)
Lemma update_inv_any (p p' : QLearnPolicy.t) (s a s' : Z) (reward : Q) (done : bool) :
  QLearnPolicy._update_q_value p s a s' reward done = Ok p' ->
  exists ki kj r q target,
    QLearnPolicy.Qtab p !! ki = Some r /\ r !! kj = Some q /\
    p' = QLearnPolicy.set_Q p
           (<[ki := <[kj := (q + QLearnPolicy.alpha p * (target - q))%Q]> r]>
              (QLearnPolicy.Qtab p)) /\
    (if done then target = reward
     else exists nr m, In nr (QLearnPolicy.Qtab p) /\ np.max (a_gtb exact) nr = Ok m /\
                       target = (reward + QLearnPolicy.gamma p * m)%Q).
Proof.
  assert (Hget : forall (tab : list (list Q)) i j q, np.get tab i j = Ok q ->
            exists ki kj r, np.index (length tab) i = Ok ki /\ tab !! ki = Some r /\
                            np.index (length r) j = Ok kj /\ r !! kj = Some q).
  { intros tab i j q H. unfold np.get, np.row in H.
    unbind H as r Hr. unbind Hr as ki Hki.
    destruct (tab !! ki) as [r'|] eqn:Er; [|discriminate]. injection Hr as ->.
    unbind H as kj Hkj.
    destruct (r !! kj) as [q'|] eqn:Eq; [|discriminate]. injection H as ->.
    exists ki, kj, r. auto. }
  assert (Hset : forall (tab tab' : list (list Q)) i j v ki kj r,
            np.index (length tab) i = Ok ki -> tab !! ki = Some r ->
            np.index (length r) j = Ok kj ->
            np.set tab i j v = Ok tab' -> tab' = <[ki := <[kj := v]> r]> tab).
  { intros tab tab' i j v ki kj r Hki Hr Hkj H. unfold np.set in H.
    rewrite Hki in H. simpl in H. rewrite Hr, Hkj in H. simpl in H.
    injection H as <-. reflexivity. }
  rewrite update_q_value_body. destruct done; intros H.
  - unbind H as q Hq. unbind H as tab Htab. injection H as <-.
    destruct (Hget _ _ _ _ Hq) as (ki & kj & r & Hki & Hr & Hkj & Hrq).
    rewrite (Hset _ _ _ _ _ _ _ _ Hki Hr Hkj Htab).
    exists ki, kj, r, q, reward. auto.
  - unbind H as nr Hnr. unbind H as m Hm. unbind H as q Hq.
    unbind H as tab Htab. injection H as <-.
    destruct (Hget _ _ _ _ Hq) as (ki & kj & r & Hki & Hr & Hkj & Hrq).
    rewrite (Hset _ _ _ _ _ _ _ _ Hki Hr Hkj Htab).
    exists ki, kj, r, q, (reward + QLearnPolicy.gamma p * m)%Q.
    repeat split; auto. exists nr, m. repeat split; auto.
    unfold np.row in Hnr. unbind Hnr as k Hk.
    destruct (QLearnPolicy.Qtab p !! k) as [r'|] eqn:Er; [|discriminate].
    injection Hnr as ->. apply list_elem_of_In. eapply list_elem_of_lookup_2. exact Er.
Qed.

Section Bound.
Variables (R gamma alpha : Q).
Hypothesis HR : (0 <= R)%Q.
Hypothesis Hgamma : (0 <= gamma < 1)%Q.
Hypothesis Halpha : (0 < alpha <= 1)%Q.

Let B : Q := (R / (1 - gamma))%Q.

Lemma bound_fixpoint : (B * (1 - gamma) == R)%Q.
Proof. unfold B. field. lra. Qed.

Lemma bound_nonneg : (0 <= B)%Q.
Proof.
  unfold B, Qdiv. apply Qmult_le_0_compat; [exact HR|].
  apply Qlt_le_weak, Qinv_lt_0_compat. lra.
Qed.

Lemma moved_bounded (q target : Q) :
  (Qabs q <= B)%Q -> (Qabs target <= B)%Q ->
  (Qabs (q + alpha * (target - q)) <= B)%Q.
Proof.
  intros Hq Ht. apply Qabs_Qle_condition in Hq. apply Qabs_Qle_condition in Ht.
  apply Qabs_Qle_condition. split; nra.
Qed.

Lemma terminal_target_bounded (reward : Q) :
  (Qabs reward <= R)%Q -> (Qabs reward <= B)%Q.
Proof.
  intros Hr. apply Qabs_Qle_condition in Hr. apply Qabs_Qle_condition.
  pose proof bound_fixpoint. pose proof bound_nonneg. split; nra.
Qed.

Lemma bootstrap_target_bounded (reward m : Q) :
  (Qabs reward <= R)%Q -> (Qabs m <= B)%Q ->
  (Qabs (reward + gamma * m) <= B)%Q.
Proof.
  intros Hr Hm. apply Qabs_Qle_condition in Hr. apply Qabs_Qle_condition in Hm.
  apply Qabs_Qle_condition.
  pose proof bound_fixpoint. pose proof bound_nonneg. split; nra.
Qed.
End Bound.

Lemma update_bounded (R : Q) (p p' : QLearnPolicy.t) (s a s' : Z) (reward : Q)
  (done : bool) :
  (0 <= R)%Q ->
  (0 <= QLearnPolicy.gamma p < 1)%Q ->
  (0 < QLearnPolicy.alpha p <= 1)%Q ->
  (Qabs reward <= R)%Q ->
  bounded (R / (1 - QLearnPolicy.gamma p)) (QLearnPolicy.Qtab p) ->
  QLearnPolicy._update_q_value p s a s' reward done = Ok p' ->
  bounded (R / (1 - QLearnPolicy.gamma p)) (QLearnPolicy.Qtab p') /\
  QLearnPolicy.gamma p' = QLearnPolicy.gamma p /\
  QLearnPolicy.alpha p' = QLearnPolicy.alpha p.
Proof.
  intros HR Hg Ha Hr Hb Hup.
  destruct (update_inv_any _ _ _ _ _ _ _ Hup)
    as (ki & kj & r & q & target & Hrow & Hq & -> & Htarget).
  split; [|split; reflexivity]. simpl.
  pose proof (Forall_lookup_1 _ _ _ _ Hb Hrow) as Hrb.
  pose proof (Forall_lookup_1 _ _ _ _ Hrb Hq) as Hqb. simpl in Hqb.
  apply Forall_insert; [exact Hb|]. apply Forall_insert; [exact Hrb|].
  apply moved_bounded; [assumption..|].
  destruct done.
  - subst target. apply terminal_target_bounded; assumption.
  - destruct Htarget as (nr & m & Hnr & Hm & ->).
    apply bootstrap_target_bounded; [assumption..|].
    apply max_maximum in Hm. destruct Hm as [Hin _].
    pose proof (proj1 (List.Forall_forall _ _) Hb nr Hnr) as Hnb.
    exact (proj1 (List.Forall_forall _ _) Hnb m Hin).
Qed.

(** C10 (as amended). In exact arithmetic, with [0 <= R], [gamma] in
    [0, 1) and [alpha] in (0, 1]: the all-zero table satisfies [|Q[s, a]| <= R / (1 - gamma)] in every cell,
    and if every cell satisfies this bound, it still does after any finite
    sequence of update calls whose rewards are at most [R] in absolute
    value. *)
Theorem q_values_stay_bounded (R : Q) (p0 : QLearnPolicy.t) :
  (0 <= R)%Q ->
  (0 <= QLearnPolicy.gamma p0 < 1)%Q ->
  (0 < QLearnPolicy.alpha p0 <= 1)%Q ->
  let B := (R / (1 - QLearnPolicy.gamma p0))%Q in
  (Forall (Forall (fun c => c = 0%Q)) (QLearnPolicy.Qtab p0) ->
   bounded B (QLearnPolicy.Qtab p0)) /\
  (bounded B (QLearnPolicy.Qtab p0) ->
   forall p, updates R p0 p -> bounded B (QLearnPolicy.Qtab p)).
Proof.
  intros HR Hg Ha B. split.
  - intros Hzero. unfold bounded.
    eapply Forall_impl; [exact Hzero|]. intros r Hr. simpl in Hr.
    eapply Forall_impl; [exact Hr|]. intros c ->. simpl.
    apply (bound_nonneg R (QLearnPolicy.gamma p0) HR Hg).
  - intros Hb p Hreach.
    assert (H : bounded B (QLearnPolicy.Qtab p) /\
                QLearnPolicy.gamma p = QLearnPolicy.gamma p0 /\
                QLearnPolicy.alpha p = QLearnPolicy.alpha p0).
    { induction Hreach as [|p p' s a s' reward done _ IH Hr Hup].
      - auto.
      - destruct IH as (IHb & IHg & IHa). unfold B in *.
        rewrite <- IHg in *. rewrite <- IHa in *.
        destruct (update_bounded R p p' s a s' reward done HR Hg Ha Hr IHb Hup)
          as (Hb' & Hg' & Ha').
        split; [exact Hb'|]. split; congruence. }
    exact (proj1 H).
Qed.

Lemma q_values_stay_bounded_witness :
  exists p0 p,
    QLearnPolicy.__init__ toy_spaces (99 # 100) (1 # 2) (998 # 1000) 1 (5 # 100) = Ok p0 /\
    updates 1 p0 p /\
    QLearnPolicy._update_q_value p0 1 0 2 1 false = Ok p /\
    bounded (1 / (1 - (99 # 100))) (QLearnPolicy.Qtab p).
Proof.
  eassert (Hinit : QLearnPolicy.__init__ toy_spaces (99 # 100) (1 # 2) (998 # 1000)
                     1 (5 # 100) = Ok _).
  { vm_compute. reflexivity. }
  match type of Hinit with
  | _ = Ok ?p0 => eassert (Hup : QLearnPolicy._update_q_value p0 1 0 2 1 false = Ok _)
  end.
  { vm_compute. reflexivity. }
  assert (Hr : (Qabs 1 <= 1)%Q) by (unfold Qle; simpl; lia).
  pose proof (updates_call 1 _ _ _ 1 0 2 1 false (updates_none 1 _) Hr Hup) as Hreach.
  destruct (init_shaped _ _ _ _ _ _ _ Hinit) as [_ Hzero].
  match type of Hinit with
  | _ = Ok ?p0 =>
      destruct (q_values_stay_bounded 1 p0
                  ltac:(unfold Qle; simpl; lia)
                  ltac:(split; [unfold Qle|unfold Qlt]; simpl; lia)
                  ltac:(split; [unfold Qlt|unfold Qle]; simpl; lia))
        as [Hz Hstep]
  end.
  eexists. eexists. split; [exact Hinit|]. split; [exact Hreach|].
  split; [exact Hup|]. exact (Hstep (Hz Hzero) _ Hreach).
Defined.

(** In the arithmetic of the program the bound is not kept: with
    [R = 0.1], [gamma = 0] and [alpha = 1], every hypothesis holds for a
    zero cell and the reward [0.1], and one terminal update leaves the
    float32 nearest to 0.1 in the cell, which is above
    [R / (1 - gamma) = 0.1]. *)
Lemma bound_exceeded_float32 :
  let R := 0x1.999999999999ap-4%float in
  let gamma := 0%float in
  let alpha := 1%float in
  let reward := 0x1.999999999999ap-4%float in
  let bound := (R / (1 - gamma))%float in
  let Q := replicate 3 (replicate 2 0%float) in
  let cell := 0x1.99999ap-4%float in
  PrimFloat.leb 0 R = true /\
  PrimFloat.leb 0 gamma = true /\ PrimFloat.ltb gamma 1 = true /\
  PrimFloat.ltb 0 alpha = true /\ PrimFloat.leb alpha 1 = true /\
  PrimFloat.leb (PrimFloat.abs reward) R = true /\
  Forall (Forall (fun q => PrimFloat.leb (PrimFloat.abs q) bound = true)) Q /\
  bound = R /\
  update_table binary64 Q alpha gamma 1 0 2 reward true
  = Ok [[0; 0]; [cell; 0]; [0; 0]]%float /\
  PrimFloat.ltb bound (PrimFloat.abs cell) = true.
Proof.
  repeat split; try (vm_compute; reflexivity).
  repeat constructor.
Qed.

(** ** Action selection *)

Lemma select_In {A : Type} (xs : list A) (mask : list bool) (l : list A) (x : A) :
  np.select xs mask = Ok l ->
  In x l <-> exists i, xs !! i = Some x /\ mask !! i = Some true.
Proof.
  unfold np.select. destruct (Nat.eqb (length xs) (length mask)); [|discriminate].
  intros H. injection H as <-. rewrite <- list_elem_of_In, list_elem_of_omap. split.
  - intros ([y b] & Hin & Hf). destruct b; [|discriminate]. injection Hf as ->.
    apply elem_of_lookup_zip_with in Hin.
    destruct Hin as (i & y & b & Heq & Hy & Hb). injection Heq as <- <-. eauto.
  - intros (i & Hx & Hb). exists (x, true). split; [|reflexivity].
    apply elem_of_lookup_zip_with. exists i, x, true. auto.
Qed.

Lemma select_total {A : Type} (xs : list A) (mask : list bool) :
  length xs = length mask -> exists l, np.select xs mask = Ok l.
Proof.
  intros H. unfold np.select. rewrite H, Nat.eqb_refl. eauto.
Qed.

Lemma choice_In {A : Type} (xs : list A) (raw : nat) (x : A) :
  np.choice xs raw = Ok x -> In x xs.
Proof.
  unfold np.choice. destruct (xs !! (raw mod length xs)%nat) as [y|] eqn:E; [|discriminate].
  intros H. injection H as <-. apply list_elem_of_In. eapply list_elem_of_lookup_2. exact E.
Qed.

Lemma choice_total {A : Type} (xs : list A) (raw : nat) :
  xs <> [] -> exists x, np.choice xs raw = Ok x.
Proof.
  intros Hne. unfold np.choice.
  destruct (lookup_lt_is_Some_2 xs (raw mod length xs)%nat) as [x Hx].
  - apply Nat.mod_upper_bound. destruct xs; [congruence|simpl; lia].
  - rewrite Hx. eauto.
Qed.

Lemma choice_any {A : Type} (xs : list A) (x : A) :
  In x xs -> exists raw, np.choice xs raw = Ok x.
Proof.
  intros Hin. apply list_elem_of_In, list_elem_of_lookup_1 in Hin.
  destruct Hin as [i Hi]. exists i. unfold np.choice.
  rewrite Nat.mod_small by (apply lookup_lt_Some in Hi; exact Hi).
  rewrite Hi. reflexivity.
Qed.

Section Greedy.
Import QLearnPolicy.
Variables (p : t) (r : list Q) (m : Q).
Hypothesis Hlen : Z.of_nat (length r) = n_actions p.
Hypothesis Hmax : np.max (a_gtb exact) r = Ok m.

Lemma actions_total : exists acts, actions_with_max_q p r m = Ok acts.
Proof.
  unfold actions_with_max_q. apply select_total.
  rewrite arange_length, length_map. lia.
Qed.

(** The selected actions are exactly the positions of the row whose value
    equals the maximum. *)
Lemma actions_spec (acts : list Z) (a : Z) :
  actions_with_max_q p r m = Ok acts ->
  In a acts <->
  exists i q, a = Z.of_nat i /\ r !! i = Some q /\ (q == m)%Q.
Proof.
  intros H. unfold actions_with_max_q in H. rewrite (select_In _ _ _ a H). split.
  - intros (i & Ha & Hb). apply lookup_arange in Ha. destruct Ha as [-> _].
    rewrite lookup_map in Hb.
    destruct (r !! i) as [q|] eqn:Eq; simpl in Hb; [|discriminate].
    injection Hb as Hb. apply Qeq_bool_iff in Hb. eauto.
  - intros (i & q & -> & Hq & Heq). exists i. split.
    + apply lookup_arange. split; [reflexivity|]. apply lookup_lt_Some in Hq. lia.
    + rewrite lookup_map, Hq. simpl. f_equal. apply Qeq_bool_iff. exact Heq.
Qed.

Lemma actions_nonempty (acts : list Z) :
  actions_with_max_q p r m = Ok acts -> acts <> [].
Proof.
  intros H. destruct (max_maximum r m Hmax) as [Hin _].
  apply list_elem_of_In, list_elem_of_lookup_1 in Hin. destruct Hin as [i Hi].
  assert (Ha : In (Z.of_nat i) acts).
  { apply (actions_spec acts _ H). exists i, m.
  split; [reflexivity|]. split; [exact Hi|reflexivity]. }
  intros ->. destruct Ha.
Qed.
End Greedy.

(** C7. A call of [act] on an in-range state that does not take the
    exploration branch (it is not training, or epsilon is not positive, or
    the random number is not below epsilon) returns, and what it returns is
    an action whose table value equals the maximum of the state's row;
    every such action, not only the lowest-indexed one, is returned for
    some outcome of the tie-breaking draw. *)
Theorem act_exploits
  (p : QLearnPolicy.t) (state : Z) (training : bool) (d : draw) :
  shaped (QLearnPolicy.Qtab p) (QLearnPolicy.n_states p) (QLearnPolicy.n_actions p) ->
  0 <= state < QLearnPolicy.n_states p ->
  0 < QLearnPolicy.n_actions p ->
  training = false \/ (QLearnPolicy.epsilon p <= 0)%Q
    \/ (QLearnPolicy.epsilon p <= rand d)%Q ->
  exists r m,
    QLearnPolicy.Qtab p !! Z.to_nat state = Some r /\ maximum m r /\
    (exists a, QLearnPolicy.act p state training d = Ok a) /\
    (forall a, QLearnPolicy.act p state training d = Ok a ->
               0 <= a < QLearnPolicy.n_actions p /\
               exists q, r !! Z.to_nat a = Some q /\ (q == m)%Q) /\
    (forall i q, r !! i = Some q -> (q == m)%Q ->
       exists k, QLearnPolicy.act p state training
                   {| rand := rand d; sample := sample d; pick := k |}
                 = Ok (Z.of_nat i)).
Proof.
  intros Hshape Hs Hn Hgreedy.
  assert (Hex : forall k, QLearnPolicy.explores p training
                  {| rand := rand d; sample := sample d; pick := k |} = false).
  { intros k. unfold QLearnPolicy.explores. simpl.
    destruct Hgreedy as [-> | [He | He]]; [reflexivity| |].
    - apply Qlt_bool_false in He. rewrite He, andb_false_r. reflexivity.
    - apply Qlt_bool_false in He. rewrite He. apply andb_false_r. }
  assert (Hex' : QLearnPolicy.explores p training d = false).
  { destruct d as [u sm pk]. apply (Hex pk). }
  destruct (shaped_cell _ _ _ _ 0 Hshape Hs ltac:(lia)) as (r & q0 & Hr & Hlen & Hq0).
  assert (Hne : r <> []) by (intros ->; discriminate).
  destruct (max_total r Hne) as [m Hm].
  destruct (actions_total p r m Hlen) as [acts Hacts].
  pose proof (actions_nonempty p r m Hlen Hm acts Hacts) as Hacts_ne.
  assert (Hact : forall d', QLearnPolicy.explores p training d' = false ->
            QLearnPolicy.act p state training d' = np.choice acts (pick d')).
  { intros d' Hd'. unfold QLearnPolicy.act. rewrite Hd'.
    rewrite (row_valid _ state r ltac:(lia) Hr). cbn [bind]. rewrite Hm. cbn [bind].
    rewrite Hacts. reflexivity. }
  exists r, m. split; [exact Hr|]. split; [apply max_maximum; exact Hm|].
  split; [|split].
  - rewrite (Hact d Hex'). apply choice_total. exact Hacts_ne.
  - intros a Ha. rewrite (Hact d Hex') in Ha. apply choice_In in Ha.
    apply (actions_spec p r m Hlen acts a Hacts) in Ha.
    destruct Ha as (i & q & -> & Hq & Heq). rewrite Nat2Z.id. split.
    + apply lookup_lt_Some in Hq. lia.
    + eauto.
  - intros i q Hq Heq.
    assert (Hin : In (Z.of_nat i) acts).
    { apply (actions_spec p r m Hlen acts _ Hacts). eauto. }
    destruct (choice_any acts _ Hin) as [k Hk]. exists k.
    rewrite (Hact _ (Hex k)). exact Hk.
Qed.

Lemma act_exploits_witness :
  exists p p' a,
    QLearnPolicy.__init__ toy_spaces (99 # 100) (1 # 2) (998 # 1000) 0 0 = Ok p /\
    QLearnPolicy._update_q_value p 1 1 2 1 true = Ok p' /\
    QLearnPolicy.act p' 1 true {| rand := 1 # 3; sample := 0; pick := 5 |} = Ok a /\
    0 <= a < 2.
Proof.
  eassert (Hinit : QLearnPolicy.__init__ toy_spaces (99 # 100) (1 # 2) (998 # 1000)
                     0 0 = Ok _).
  { vm_compute. reflexivity. }
  match type of Hinit with
  | _ = Ok ?p0 => eassert (Hup : QLearnPolicy._update_q_value p0 1 1 2 1 true = Ok _)
  end.
  { vm_compute. reflexivity. }
  match type of Hup with
  | _ = Ok ?p1 =>
      assert (Hshape : shaped (QLearnPolicy.Qtab p1) (QLearnPolicy.n_states p1)
                         (QLearnPolicy.n_actions p1))
        by (split; [reflexivity|repeat constructor]);
      destruct (act_exploits p1 1 true {| rand := 1 # 3; sample := 0; pick := 5 |}
                  Hshape ltac:(simpl; lia) ltac:(simpl; lia)
                  ltac:(right; left; unfold Qle; simpl; lia))
        as (r & m & _ & _ & [a Ha] & Hin & _)
  end.
  eexists. eexists. exists a. split; [exact Hinit|]. split; [exact Hup|].
  split; [exact Ha|]. exact (proj1 (Hin a Ha)).
Defined.

(** ** The exploration-rate schedule *)

Lemma epsilon_after_succ {F : Type} (ar : arith F) (N : nat) (ef drop e : F) :
  epsilon_after ar (S N) ef drop e
  = decay_epsilon ar ef drop (epsilon_after ar N ef drop e).
Proof. reflexivity. Qed.

Lemma epsilon_after_shift {F : Type} (ar : arith F) (N : nat) (ef drop e : F) :
  epsilon_after ar (S N) ef drop e
  = epsilon_after ar N ef drop (decay_epsilon ar ef drop e).
Proof. unfold epsilon_after. apply Nat.iter_succ_r. Qed.

(** In exact arithmetic the guard of the decrement never fails before the
    last episode, and the last decrement lands on the floor. *)
Lemma exact_schedule (e0 ef : Q) (n : Z) (N : nat) :
  1 <= n -> Z.of_nat N <= n -> (ef <= e0)%Q ->
  let e := epsilon_after exact N ef ((e0 - ef) / inject_Z n)%Q e0 in
  (e == e0 - inject_Z (Z.of_nat N) * ((e0 - ef) / inject_Z n))%Q /\ (ef <= e)%Q.
Proof.
  intros Hn HN Hle. cbv zeta.
  set (drop := ((e0 - ef) / inject_Z n)%Q).
  assert (Hdn : (1 <= inject_Z n)%Q).
  { change 1%Q with (inject_Z 1). rewrite <- Zle_Qle. exact Hn. }
  assert (Hfix : (drop * inject_Z n == e0 - ef)%Q).
  { unfold drop. field. lra. }
  assert (Hdrop : (0 <= drop)%Q).
  { unfold drop, Qdiv. apply Qmult_le_0_compat; [lra|].
    apply Qlt_le_weak, Qinv_lt_0_compat. lra. }
  induction N as [|N IH].
  - unfold epsilon_after. cbn [Nat.iter nat_rect].
    change (inject_Z (Z.of_nat 0)) with 0%Q. split; lra.
  - rewrite epsilon_after_succ.
    destruct (IH ltac:(lia)) as [IHeq IHle].
    set (v := epsilon_after exact N ef drop e0) in *.
    assert (HdN : (inject_Z (Z.of_nat N) + 1 <= inject_Z n)%Q).
    { rewrite <- inject_Z_succ_nat. rewrite <- Zle_Qle. exact HN. }
    rewrite inject_Z_succ_nat.
    set (k := inject_Z (Z.of_nat N)) in *.
    unfold decay_epsilon. cbn [a_gtb a_sub exact].
    destruct (Qlt_bool ef v) eqn:E.
    + split; [rewrite IHeq; ring|]. nra.
    + apply Qlt_bool_false in E.
      assert (Hzero : (drop <= 0)%Q) by nra.
      split; [|exact IHle]. nra.
Qed.

Lemma update_keeps_schedule (p p' : QLearnPolicy.t) (s a s' : Z) (reward : Q)
  (done : bool) :
  QLearnPolicy._update_q_value p s a s' reward done = Ok p' ->
  QLearnPolicy.epsilon p' = QLearnPolicy.epsilon p /\
  QLearnPolicy.epsilon_final p' = QLearnPolicy.epsilon_final p.
Proof.
  intros H. destruct (update_inv_any _ _ _ _ _ _ _ H)
    as (ki & kj & r & q & target & _ & _ & -> & _).
  split; reflexivity.
Qed.

Lemma reraise_Ok {A : Type} (m : result A) (x : A) :
  QLearnPolicy.reraise m = Ok x -> m = Ok x.
Proof. destruct m; simpl; intros H; [exact H|discriminate..]. Qed.

Section Training.
Import QLearnPolicy.
Context {E : Type}.
Variable reset : E -> E * Z.
Variable step : E -> Z -> E * (Z * Q * bool).
Variable rng : nat -> draw.
Variable every_episodes : option Z.

(** Nothing inside an episode touches the exploration rate: it only
    changes between episodes. *)
Lemma episode_keeps_schedule (fuel : nat) (p p' : t) (e e' : E) (state : Z)
  (n n' : nat) (acc acc' : Q) :
  episode step rng fuel p e state n acc = Ok (p', e', n', acc') ->
  epsilon p' = epsilon p /\ epsilon_final p' = epsilon_final p.
Proof.
  revert p e state n acc.
  induction fuel as [|fuel IH]; intros p e state n acc H; [discriminate|].
  cbn [episode] in H. unbind H as action Hact.
  destruct (step e action) as [e1 [[new_state reward] done]].
  unbind H as p1 Hup. apply reraise_Ok, update_keeps_schedule in Hup.
  destruct Hup as [He Hf]. destruct done.
  - injection H as <- _ _ _. auto.
  - apply IH in H. destruct H as [He' Hf']. split; congruence.
Qed.

Lemma episodes_schedule (k fuel : nat) (drop : Q) (s s' : run) :
  episodes reset step rng every_episodes k fuel drop s = Ok s' ->
  epsilon (policy s')
  = epsilon_after exact k (epsilon_final (policy s)) drop (epsilon (policy s)) /\
  epsilon_final (policy s') = epsilon_final (policy s).
Proof.
  revert s. induction k as [|k IH]; intros s H.
  - injection H as <-. auto.
  - cbn [episodes] in H. destruct (reset (world s)) as [e state].
    unbind H as r Hep. destruct r as [[[p1 e1] n1] acc1].
    apply episode_keeps_schedule in Hep. destruct Hep as [He Hf].
    unbind H as shown Hshown. apply IH in H. cbn [policy decay epsilon epsilon_final] in H.
    destruct H as [H1 H2]. rewrite epsilon_after_shift.
    rewrite H1, H2, He, Hf. auto.
Qed.

Lemma train_upto_schedule (p : t) (e : E) (n_episodes : Z) (N fuel : nat) (s : run) :
  train_upto reset step rng every_episodes p e n_episodes N fuel = Ok s ->
  epsilon_schedule exact (epsilon p) (epsilon_final p) n_episodes N
  = Ok (epsilon (policy s)) /\
  epsilon_final (policy s) = epsilon_final p.
Proof.
  unfold train_upto, epsilon_schedule. intros H. unbind H as drop Hdrop.
  rewrite Hdrop. simpl. apply episodes_schedule in H. simpl in H.
  destruct H as [-> ->]. auto.
Qed.
End Training.

(** C2 (as amended). In exact arithmetic, for a run of [train(n_episodes)]
    with [n_episodes >= 1] that starts at exploration rate [e0] with floor
    [epsilon_final <= e0]: after any [N <= n_episodes] completed episodes
    epsilon is the value of the schedule "subtract
    [(e0 - epsilon_final) / n_episodes] while epsilon is above the floor",
    which equals [e0 - N * (e0 - epsilon_final) / n_episodes], equals the
    maximum of that and [epsilon_final], and is not below
    [epsilon_final]. *)
Theorem train_epsilon_exact
  {E : Type} (reset : E -> E * Z) (step : E -> Z -> E * (Z * Q * bool))
  (rng : nat -> draw) (every_episodes : option Z)
  (p : QLearnPolicy.t) (e : E) (n_episodes : Z) (N fuel : nat)
  (s : QLearnPolicy.run) :
  1 <= n_episodes ->
  Z.of_nat N <= n_episodes ->
  (QLearnPolicy.epsilon_final p <= QLearnPolicy.epsilon p)%Q ->
  QLearnPolicy.train_upto reset step rng every_episodes p e n_episodes N fuel = Ok s ->
  let e0 := QLearnPolicy.epsilon p in
  let ef := QLearnPolicy.epsilon_final p in
  let linear := (e0 - inject_Z (Z.of_nat N) * (e0 - ef) / inject_Z n_episodes)%Q in
  let now := QLearnPolicy.epsilon (QLearnPolicy.policy s) in
  epsilon_schedule exact e0 ef n_episodes N = Ok now /\
  (now == linear)%Q /\
  (now == Qmax ef linear)%Q /\
  (ef <= now)%Q.
Proof.
  intros Hn HN Hle Htrain e0 ef linear now.
  destruct (train_upto_schedule reset step rng every_episodes p e n_episodes N fuel s
              Htrain)
    as [Hsched _].
  split; [exact Hsched|].
  unfold epsilon_schedule, epsilon_drop in Hsched.
  destruct (n_episodes =? 0) eqn:E0; [apply Z.eqb_eq in E0; lia|].
  cbn [bind a_div_int a_sub exact] in Hsched. injection Hsched as Hnow.
  fold e0 ef in Hnow. fold now in Hnow.
  destruct (exact_schedule e0 ef n_episodes N Hn HN Hle) as [Heq Hfloor].
  cbv zeta in Heq, Hfloor. rewrite Hnow in Heq, Hfloor.
  assert (Hlin : (now == linear)%Q).
  { rewrite Heq. unfold linear. unfold Qdiv. ring. }
  split; [exact Hlin|]. split; [|exact Hfloor].
  rewrite Q.max_r; [exact Hlin|]. rewrite <- Hlin. exact Hfloor.
Qed.

Lemma train_epsilon_exact_witness :
  exists p s,
    QLearnPolicy.__init__ toy_spaces (99 # 100) (1 # 2) (998 # 1000) 1 (5 # 100) = Ok p /\
    QLearnPolicy.train_upto toy_reset toy_step toy_rng (Some 10) p tt 4 2 3 = Ok s /\
    (QLearnPolicy.epsilon (QLearnPolicy.policy s)
     == 1 - inject_Z (Z.of_nat 2) * (1 - (5 # 100)) / inject_Z 4)%Q /\
    (5 # 100 <= QLearnPolicy.epsilon (QLearnPolicy.policy s))%Q.
Proof.
  eassert (Hinit : QLearnPolicy.__init__ toy_spaces (99 # 100) (1 # 2) (998 # 1000)
                     1 (5 # 100) = Ok _).
  { vm_compute. reflexivity. }
  match type of Hinit with
  | _ = Ok ?p0 =>
      eassert (Htrain : QLearnPolicy.train_upto toy_reset toy_step toy_rng (Some 10)
                          p0 tt 4 2 3 = Ok _);
      [vm_compute; reflexivity|];
      destruct (train_epsilon_exact toy_reset toy_step toy_rng (Some 10) p0 tt 4 2 3 _
                  ltac:(lia) ltac:(simpl; lia) ltac:(unfold Qle; simpl; lia) Htrain)
        as (_ & Hlin & _ & Hfloor)
  end.
  eexists. eexists. split; [exact Hinit|]. split; [exact Htrain|].
  split; [exact Hlin|exact Hfloor].
Defined.

(** The same schedule in binary64, the arithmetic the program runs in,
    ends strictly below the floor: with [epsilon = 1.0],
    [epsilon_final = 0.1] and one episode the single decrement gives
    [1.0 - 0.9 = 0.09999999999999998 < 0.1]; with the program's own
    settings ([epsilon = 1.0], [epsilon_final = 0.05], 1000 episodes) the
    thousandth decrement gives [0.049999999999993702 < 0.05]. There is no
    clamp in [train]. *)
Lemma epsilon_below_final_binary64 :
  (exists e,
      epsilon_schedule binary64 1%float 0x1.999999999999ap-4%float 1 1 = Ok e /\
      PrimFloat.ltb e 0x1.999999999999ap-4%float = true) /\
  (exists e,
      epsilon_schedule binary64 1%float 0x1.999999999999ap-5%float 1000 1000 = Ok e /\
      PrimFloat.ltb e 0x1.999999999999ap-5%float = true).
Proof.
  split.
  - eexists. split; [vm_compute; reflexivity|]. vm_compute. reflexivity.
  - eexists. split; [vm_compute; reflexivity|]. vm_compute. reflexivity.
Qed.

(** ** Construction *)

Lemma traverse_linspace (num : Z) (bounds : list (Q * Q)) :
  (exists vb, traverse (fun lh => np.linspace (fst lh) (snd lh) num) bounds = Ok vb)
  <-> 0 <= num \/ bounds = [].
Proof.
  split.
  - intros [vb H]. destruct bounds as [|[l h] bounds]; [right; reflexivity|left].
    destruct (Z_lt_le_dec num 0) as [Hneg|Hok]; [|exact Hok].
    cbn [traverse fst snd] in H. rewrite (linspace_Raise l h num Hneg) in H.
    discriminate.
  - intros [Hnum | ->]; [|exists []; reflexivity].
    apply traverse_total. apply Forall_forall. intros [l h] _.
    apply linspace_Ok. exact Hnum.
Qed.

(** C8 (as amended). Neither constructor checks a hyperparameter range.
    The learner's constructor returns exactly when the environment's action
    and observation spaces are both discrete with non-negative sizes, for
    any values of gamma, alpha, alpha_decay, epsilon and epsilon_final, and
    stores these values unchanged.  The discretizer's constructor returns
    exactly when the observation space is a box and either
    [n_bins >= -1] or there is no dimension to build edges for; bound
    vectors of different lengths are cut to the shorter one. *)
Theorem construction_checks :
  (forall env g al ad e ef,
      (exists p, QLearnPolicy.__init__ env g al ad e ef = Ok p) <->
      (exists na ns, action_space env = Discrete na /\
                     observation_space env = Discrete ns /\ 0 <= na /\ 0 <= ns)) /\
  (forall env g al ad e ef p,
      QLearnPolicy.__init__ env g al ad e ef = Ok p ->
      QLearnPolicy.gamma p = g /\ QLearnPolicy.alpha p = al /\
      QLearnPolicy.alpha_decay p = ad /\ QLearnPolicy.epsilon p = e /\
      QLearnPolicy.epsilon_final p = ef) /\
  (forall env nb low high,
      (exists w, DiscretizedObservationWrapper.__init__ env nb low high = Ok w) <->
      (exists elow ehigh,
          observation_space env = Box elow ehigh /\
          (-1 <= nb \/
           zip (DiscretizedObservationWrapper.given elow low)
               (DiscretizedObservationWrapper.given ehigh high) = []))) /\
  (forall env nb low high w elow ehigh,
      observation_space env = Box elow ehigh ->
      DiscretizedObservationWrapper.__init__ env nb low high = Ok w ->
      DiscretizedObservationWrapper.n_bins w = nb /\
      length (DiscretizedObservationWrapper.val_bins w)
      = Nat.min (length (DiscretizedObservationWrapper.given elow low))
                (length (DiscretizedObservationWrapper.given ehigh high))).
Proof.
  split; [|split; [|split]].
  - intros env g al ad e ef. unfold QLearnPolicy.__init__. split.
    + intros [p H].
      destruct (action_space env) as [|na]; [discriminate|].
      destruct (observation_space env) as [|ns]; [discriminate|].
      unbind H as tab Htab. unfold np.zeros in Htab.
      destruct ((ns <? 0) || (na <? 0)) eqn:E; [discriminate|].
      apply orb_false_elim in E. destruct E as [E1 E2].
      apply Z.ltb_ge in E1. apply Z.ltb_ge in E2. exists na, ns. auto.
    + intros (na & ns & -> & -> & Hna & Hns). unfold np.zeros.
      apply Z.ltb_ge in Hna. apply Z.ltb_ge in Hns. rewrite Hna, Hns. simpl. eauto.
  - intros env g al ad e ef p. unfold QLearnPolicy.__init__.
    destruct (action_space env) as [|na]; [discriminate|].
    destruct (observation_space env) as [|ns]; [discriminate|].
    intros H. unbind H as tab Htab. injection H as <-. simpl. auto.
  - intros env nb low high. unfold DiscretizedObservationWrapper.__init__. split.
    + intros [w H]. destruct (observation_space env) as [elow ehigh|]; [|discriminate].
      unbind H as vb Hvb. exists elow, ehigh. split; [reflexivity|].
      destruct (proj1 (traverse_linspace (nb + 1) _) (ex_intro _ vb Hvb)) as [Hn|Hz];
        [left; lia|right; exact Hz].
    + intros (elow & ehigh & -> & Hok).
      assert (Hnum : 0 <= nb + 1 \/
                zip (DiscretizedObservationWrapper.given elow low)
                    (DiscretizedObservationWrapper.given ehigh high) = []).
      { destruct Hok as [Hn|Hz]; [left; lia|right; exact Hz]. }
      destruct (proj2 (traverse_linspace (nb + 1) _) Hnum) as [vb Hvb].
      rewrite Hvb. simpl. eauto.
  - intros env nb low high w elow ehigh Hbox Hinit.
    split; [apply (init_n_bins env nb low high w Hinit)|].
    pose proof (init_val_bins env nb low high w Hinit elow ehigh Hbox) as Hvb.
    apply Forall2_length in Hvb. rewrite <- Hvb. apply length_zip_with.
Qed.

(** Construction with invalid hyperparameters returns an object: a learner
    with [gamma = 2] and [epsilon = -1], a discretizer with [n_bins = 0],
    and a discretizer whose [low] has three entries and whose [high] has
    one. *)
Lemma construction_accepts_invalid :
  (exists p, QLearnPolicy.__init__ toy_spaces 2 (1 # 2) (998 # 1000) (-1) (5 # 100)
             = Ok p) /\
  (exists w, DiscretizedObservationWrapper.__init__ box_spaces 0 None None = Ok w) /\
  (exists w, DiscretizedObservationWrapper.__init__ box_spaces 8
               (Some [0; 0; 0]%Q) (Some [1]%Q) = Ok w).
Proof.
  split; [|split]; eexists; vm_compute; reflexivity.
Qed.

(** ** Worked examples *)

(** The cart-pole configuration of the program's entry point: eight bins
    per dimension over the given bounds. *)
Example observation_cartpole :
  exists w,
    DiscretizedObservationWrapper.__init__ box_spaces 8
      (Some [-24 # 10; -2; -42 # 100; -35 # 10]%Q)
      (Some [24 # 10; 2; 42 # 100; 35 # 10]%Q) = Ok w /\
    DiscretizedObservationWrapper.wrapped_observation_space w = Discrete 10000 /\
    DiscretizedObservationWrapper.digits w [-24 # 10; 7 # 4; 0; 349 # 100]%Q
    = Ok [1; 8; 5; 8] /\
    DiscretizedObservationWrapper.observation w [-24 # 10; 7 # 4; 0; 349 # 100]%Q
    = Ok (np.Int 8581) /\
    DiscretizedObservationWrapper.observation w [-100; 100; 24 # 10; 0]%Q
    = Ok (np.Int 5990).
Proof.
  eexists. split; [vm_compute; reflexivity|].
  repeat split; vm_compute; reflexivity.
Qed.

(** Decreasing edges are searched from the other end. *)
Example digitize_decreasing :
  np.digitize (3 # 4) [1; 1 # 2; 0]%Q = Ok 1 /\
  np.digitize 2 [1; 1 # 2; 0]%Q = Ok 0 /\
  np.digitize (-1) [1; 1 # 2; 0]%Q = Ok 3 /\
  np.digitize (-1) [1; 3 # 2; 0]%Q = Raise ValueError.
Proof. repeat split; reflexivity. Qed.

(** Ten episodes from [epsilon = 1] to the floor [1/20]: the exact schedule
    ends on the floor. *)
Example exact_schedule_ten :
  exists e, epsilon_schedule exact 1%Q (1 # 20)%Q 10 10 = Ok e /\ (e == 1 # 20)%Q.
Proof. eexists. split; [vm_compute; reflexivity|]. reflexivity. Qed.

(** The table is indexed like a numpy array. *)
Example table_indexing :
  np.get [[1; 2]; [3; 4]]%Q 1 0 = Ok 3%Q /\
  np.get [[1; 2]; [3; 4]]%Q (-1) (-1) = Ok 4%Q /\
  np.get [[1; 2]; [3; 4]]%Q 2 0 = Raise IndexError /\
  np.max (a_gtb exact) ([] : list Q) = Raise ValueError.
Proof. repeat split; reflexivity. Qed.

(** A wrong state index inside [train] surfaces as a plain [Exception];
    an episode that does not end runs out of fuel; no episodes and a
    report every 0 episodes divide by zero. *)
Example train_failures :
  forall p,
    QLearnPolicy.__init__ toy_spaces (99 # 100) (1 # 2) (998 # 1000) 1 (5 # 100) = Ok p ->
    QLearnPolicy.train (fun e : unit => (e, 7)) toy_step toy_rng None p tt 3 5
    = Raise Exception /\
    QLearnPolicy.train toy_reset (fun e _ => (e, (0, 1%Q, false))) toy_rng None p tt 3 5
    = OutOfFuel /\
    QLearnPolicy.train toy_reset toy_step toy_rng None p tt 0 5
    = Raise ZeroDivisionError /\
    QLearnPolicy.train toy_reset toy_step toy_rng (Some 0) p tt 3 5
    = Raise ZeroDivisionError.
Proof.
  intros p H. vm_compute in H. injection H as <-.
  repeat split; vm_compute; reflexivity.
Qed.

(** * Further properties of the code *)

(** ** The encoding of digits is a bijection *)

Lemma decode_length (base : Z) (k : nat) (s : Z) : length (decode base k s) = k.
Proof. revert s. induction k as [|k IH]; intros s; simpl; [reflexivity|]. rewrite IH. reflexivity. Qed.

Lemma decode_range (base : Z) (k : nat) (s : Z) :
  0 < base -> Forall (fun d => 0 <= d < base) (decode base k s).
Proof.
  intros Hb. revert s. induction k as [|k IH]; intros s; simpl; constructor.
  - apply Z.mod_pos_bound. exact Hb.
  - apply IH.
Qed.

Lemma mixed_radix_decode (base : Z) (k : nat) (s : Z) :
  0 < base -> 0 <= s < base ^ Z.of_nat k ->
  mixed_radix base 0 (decode base k s) = s.
Proof.
  intros Hb. revert s. induction k as [|k IH]; intros s Hs.
  - simpl in *. lia.
  - cbn [decode]. rewrite mixed_radix_cons.
    rewrite Nat2Z.inj_succ, Z.pow_succ_r in Hs by lia.
    rewrite IH.
    + pose proof (Z.div_mod s base ltac:(lia)). lia.
    + split; [apply Z.div_pos; lia|].
      apply Z.div_lt_upper_bound; lia.
Qed.

(** X1. For a positive base [n_bins + 2] whose [k]-th power is at most
    [2^63], [_convert_to_one_number] is a bijection between the
    digit lists of length [k] with entries in [0 .. n_bins+1] and the
    states [0 .. (n_bins+2)^k - 1]: two such lists with the same state are
    equal, and every state in that range is the encoding of its own
    decoding. *)
Theorem convert_to_one_number_bijection
  (w : DiscretizedObservationWrapper.t) (k : nat) :
  let base := DiscretizedObservationWrapper.n_bins w + 2 in
  let encode := DiscretizedObservationWrapper._convert_to_one_number w in
  0 < base ->
  base ^ Z.of_nat k <= 2 ^ 63 ->
  (forall ds ds',
      length ds = k -> length ds' = k ->
      Forall (fun d => 0 <= d < base) ds ->
      Forall (fun d => 0 <= d < base) ds' ->
      encode ds = encode ds' -> ds = ds') /\
  (forall s,
      0 <= s < base ^ Z.of_nat k ->
      length (decode base k s) = k /\
      Forall (fun d => 0 <= d < base) (decode base k s) /\
      encode (decode base k s) = np.Int s).
Proof.
  intros base encode Hb Hfit. subst encode. split.
  - intros ds ds' Hk Hk' Hr Hr' Heq.
    rewrite (convert_mixed_radix w base ds eq_refl Hr) in Heq by (rewrite Hk; exact Hfit).
    rewrite (convert_mixed_radix w base ds' eq_refl Hr') in Heq
      by (rewrite Hk'; exact Hfit).
    injection Heq as Heq.
    rewrite <- (decode_mixed_radix base ds Hr), <- (decode_mixed_radix base ds' Hr').
    rewrite Hk, Hk', Heq. reflexivity.
  - intros s Hs. pose proof (decode_range base k s Hb) as Hr.
    split; [apply decode_length|]. split; [exact Hr|].
    rewrite (convert_mixed_radix w base _ eq_refl Hr)
      by (rewrite decode_length; exact Hfit).
    f_equal. apply mixed_radix_decode; assumption.
Qed.

Lemma convert_to_one_number_bijection_witness :
  let w := {| DiscretizedObservationWrapper.n_bins := 8;
              DiscretizedObservationWrapper.val_bins := [];
              DiscretizedObservationWrapper.wrapped_observation_space := Discrete 10000;
              DiscretizedObservationWrapper.wrapped_action_space := Discrete 2 |} in
  0 < 8 + 2 /\ (8 + 2) ^ Z.of_nat 4 <= 2 ^ 63 /\
  DiscretizedObservationWrapper._convert_to_one_number w (decode (8 + 2) 4 8581)
  = np.Int 8581.
Proof.
  intros w. assert (Hb : 0 < 8 + 2) by lia.
  assert (Hfit : (8 + 2) ^ Z.of_nat 4 <= 2 ^ 63) by (rewrite two_63; simpl; lia).
  split; [exact Hb|]. split; [exact Hfit|].
  destruct (convert_to_one_number_bijection w 4 Hb Hfit) as [_ Hdec].
  exact (proj2 (proj2 (Hdec 8581 ltac:(simpl; lia)))).
Defined.

(** ** States beyond 64 bits *)

Lemma int64_range (z : Z) : - 2 ^ 63 <= np.int64 z < 2 ^ 63.
Proof.
  unfold np.int64. rewrite two_63, two_64.
  pose proof (Z.mod_pos_bound (z + 9223372036854775808) 18446744073709551616
                ltac:(lia)). lia.
Qed.

Lemma int64_add_l (x y : Z) : np.int64 (np.int64 x + y) = np.int64 (x + y).
Proof.
  unfold np.int64. f_equal.
  replace ((x + 2 ^ 63) mod 2 ^ 64 - 2 ^ 63 + y + 2 ^ 63)
    with ((x + 2 ^ 63) mod 2 ^ 64 + y) by lia.
  rewrite Zplus_mod_idemp_l. f_equal. lia.
Qed.

Lemma int64_add_r (x y : Z) : np.int64 (x + np.int64 y) = np.int64 (x + y).
Proof. rewrite (Z.add_comm x), int64_add_l. f_equal. lia. Qed.

Lemma wrapped_sum_from (base : Z) (ds : list Z) (i : nat) (a : Z) :
  (forall j, (i <= j < i + length ds)%nat -> - 2 ^ 63 <= base ^ Z.of_nat j < 2 ^ 63) ->
  - 2 ^ 63 <= a < 2 ^ 63 ->
  fold_left np.add
    (map (fun id : Z * Z => np.mul (snd id) (base ^ fst id))
         (zip (map Z.of_nat (seq i (length ds))) ds))
    (np.Int a)
  = np.Int (np.int64 (a + mixed_radix base i ds)).
Proof.
  revert i a. induction ds as [|d ds IH]; intros i a Hw Ha.
  - simpl. rewrite Z.add_0_r, int64_small by exact Ha. reflexivity.
  - cbn [length seq map zip zip_with fold_left fst snd mixed_radix].
    pose proof (Hw i ltac:(simpl; lia)) as Hi.
    unfold np.mul at 2.
    destruct (- 2 ^ 63 <=? base ^ Z.of_nat i) eqn:E1; [|apply Z.leb_gt in E1; lia].
    destruct (base ^ Z.of_nat i <? 2 ^ 63) eqn:E2; [|apply Z.ltb_ge in E2; lia].
    cbn [andb np.add].
    rewrite (IH (S i)); [|intros j Hj; apply Hw; simpl; lia|apply int64_range].
    f_equal. rewrite int64_add_l.
    set (P := base ^ Z.of_nat i). set (rest := mixed_radix base (S i) ds).
    replace (a + np.int64 (d * P) + rest) with (a + rest + np.int64 (d * P)) by lia.
    rewrite int64_add_r. f_equal. lia.
Qed.

(** X21. As long as every weight [(n_bins+2)^i] fits a signed 64-bit
    integer, whatever the [np.int64] digits are, [_convert_to_one_number]
    returns an [np.int64]: the sum [sum_i d_i * (n_bins+2)^i] reduced
    modulo [2^64] into [-2^63 .. 2^63 - 1].  So a sum that does not fit is
    not rejected, it comes back wrapped around. *)
Theorem convert_to_one_number_modulo
  (w : DiscretizedObservationWrapper.t) (ds : list Z) :
  let base := DiscretizedObservationWrapper.n_bins w + 2 in
  let total := mixed_radix base 0 ds in
  (forall i, (i < length ds)%nat -> - 2 ^ 63 <= base ^ Z.of_nat i < 2 ^ 63) ->
  exists state,
    DiscretizedObservationWrapper._convert_to_one_number w ds = np.Int state /\
    - 2 ^ 63 <= state < 2 ^ 63 /\
    (state - total) mod 2 ^ 64 = 0 /\
    (- 2 ^ 63 <= total < 2 ^ 63 -> state = total).
Proof.
  intros base total Hw. exists (np.int64 total).
  split; [|split; [apply int64_range|split]].
  - unfold DiscretizedObservationWrapper._convert_to_one_number, np.enumerate,
      np.arange, np.sum.
    rewrite Nat2Z.id. fold base.
    rewrite (wrapped_sum_from base ds 0 0);
      [reflexivity|intros j Hj; apply Hw; lia|rewrite two_63; lia].
  - unfold np.int64.
    replace ((total + 2 ^ 63) mod 2 ^ 64 - 2 ^ 63 - total)
      with ((total + 2 ^ 63) mod 2 ^ 64 - (total + 2 ^ 63)) by lia.
    rewrite Zminus_mod_idemp_l. rewrite Z.sub_diag. reflexivity.
  - apply int64_small.
Qed.

Lemma convert_to_one_number_modulo_witness :
  let w := {| DiscretizedObservationWrapper.n_bins := 8;
              DiscretizedObservationWrapper.val_bins := [];
              DiscretizedObservationWrapper.wrapped_observation_space := Discrete 10000;
              DiscretizedObservationWrapper.wrapped_action_space := Discrete 2 |} in
  let ds := replicate 19 9 in
  (forall i, (i < length ds)%nat -> - 2 ^ 63 <= (8 + 2) ^ Z.of_nat i < 2 ^ 63) /\
  exists state,
    DiscretizedObservationWrapper._convert_to_one_number w ds = np.Int state /\
    (state - (10 ^ 19 - 1)) mod 2 ^ 64 = 0.
Proof.
  intros w ds.
  assert (Hw : forall i, (i < length ds)%nat ->
                 - 2 ^ 63 <= (8 + 2) ^ Z.of_nat i < 2 ^ 63).
  { intros i Hi. rewrite two_63. split.
    - pose proof (Z.pow_nonneg (8 + 2) (Z.of_nat i) ltac:(lia)). lia.
    - apply Z.le_lt_trans with ((8 + 2) ^ 18); [|reflexivity].
      apply Z.pow_le_mono_r; [lia|]. simpl in Hi. lia. }
  split; [exact Hw|].
  destruct (convert_to_one_number_modulo w ds Hw) as (state & Hstate & _ & Hmod & _).
  exists state. split; [exact Hstate|exact Hmod].
Defined.

(** ** The edges built by the constructor *)

Lemma inject_Z_nat_nonneg (j : nat) : (0 <= inject_Z (Z.of_nat j))%Q.
Proof. change 0%Q with (inject_Z 0). rewrite <- Zle_Qle. lia. Qed.

Lemma step_positive (l h : Q) (n : Z) :
  1 <= n -> (l < h)%Q -> (0 < (h - l) / inject_Z n)%Q.
Proof.
  intros Hn Hlh. unfold Qdiv. apply Qmult_lt_0_compat; [lra|].
  apply Qinv_lt_0_compat. change 0%Q with (inject_Z 0). rewrite <- Zlt_Qlt. lia.
Qed.

(** X2. The constructor builds, for every dimension [i] that has both a
    lower and an upper bound, [n_bins + 1] edges: the first edge is
    [low[i]], and with [n_bins >= 1] the last edge is [high[i]].  With
    [n_bins = 0] the single edge is [low[i]], and [high[i]] is not an edge
    unless it equals [low[i]]. *)
Theorem val_bins_edges
  (env : spaces) (elow ehigh : list Q) (nb : Z) (low high : option (list Q))
  (w : DiscretizedObservationWrapper.t) (i : nat) (l h : Q) (bins : list Q) :
  observation_space env = Box elow ehigh ->
  DiscretizedObservationWrapper.__init__ env nb low high = Ok w ->
  0 <= nb ->
  DiscretizedObservationWrapper.given elow low !! i = Some l ->
  DiscretizedObservationWrapper.given ehigh high !! i = Some h ->
  DiscretizedObservationWrapper.val_bins w !! i = Some bins ->
  Z.of_nat (length bins) = nb + 1 /\
  (exists e, bins !! 0%nat = Some e /\ (e == l)%Q) /\
  (1 <= nb -> exists e, bins !! Z.to_nat nb = Some e /\ (e == h)%Q) /\
  (nb = 0 -> forall e, In e bins -> (e == l)%Q).
Proof.
  intros Hbox Hinit Hnb Hl Hh Hb.
  pose proof (init_bins_lookup _ _ _ _ _ _ _ _ _ _ _ Hbox Hinit Hl Hh Hb) as Hlin.
  pose proof (linspace_length _ _ _ _ Hlin) as Hlen.
  split; [lia|]. split; [|split].
  - destruct (lookup_lt_is_Some_2 bins 0%nat) as [e He]; [lia|].
    exists e. split; [exact He|]. eapply linspace_first; eassumption.
  - intros H1. destruct (lookup_lt_is_Some_2 bins (Z.to_nat nb)) as [e He]; [lia|].
    exists e. split; [exact He|].
    apply (linspace_last l h (nb + 1) bins); [lia|exact Hlin|].
    replace (nb + 1 - 1) with nb by lia. exact He.
  - intros -> e Hin. apply list_elem_of_In, list_elem_of_lookup_1 in Hin.
    destruct Hin as [j Hj]. pose proof (lookup_lt_Some _ _ _ Hj) as Hjlt.
    assert (j = 0%nat) as -> by (simpl in Hlen; lia).
    eapply linspace_first; eassumption.
Qed.

Lemma val_bins_edges_witness :
  exists w bins,
    DiscretizedObservationWrapper.__init__ box_spaces 8
      (Some [-24 # 10; -2]%Q) (Some [24 # 10; 2]%Q) = Ok w /\
    DiscretizedObservationWrapper.val_bins w !! 1%nat = Some bins /\
    Z.of_nat (length bins) = 8 + 1 /\
    (exists e, bins !! Z.to_nat 8 = Some e /\ (e == 2)%Q).
Proof.
  eassert (Hinit : DiscretizedObservationWrapper.__init__ box_spaces 8
                     (Some [-24 # 10; -2]%Q) (Some [24 # 10; 2]%Q) = Ok _).
  { vm_compute. reflexivity. }
  match type of Hinit with
  | _ = Ok ?w0 =>
      eassert (Hb : DiscretizedObservationWrapper.val_bins w0 !! 1%nat = Some _);
      [vm_compute; reflexivity|];
      destruct (val_bins_edges box_spaces _ _ 8 _ _ w0 1 (-2)%Q 2%Q _
                  eq_refl Hinit ltac:(lia) eq_refl eq_refl Hb)
        as (Hlen & _ & Hlast & _)
  end.
  eexists. eexists. split; [exact Hinit|]. split; [exact Hb|].
  split; [exact Hlen|]. apply Hlast. lia.
Defined.

(** ** Order properties of the discretization *)

Lemma searchsorted_right_mono (a : list Q) (x y : Q) :
  (x <= y)%Q -> (np.searchsorted_right a x <= np.searchsorted_right a y)%nat.
Proof.
  intros Hxy. induction a as [|b a IH]; simpl; [lia|].
  destruct (Qle_bool b x) eqn:Ex; [|lia].
  apply Qle_bool_iff in Ex.
  assert (Ey : Qle_bool b y = true) by (apply Qle_bool_iff; lra).
  rewrite Ey. lia.
Qed.

Lemma mixed_radix_mono (base : Z) (i : nat) (ds ds' : list Z) :
  0 <= base -> Forall2 Z.le ds ds' ->
  mixed_radix base i ds <= mixed_radix base i ds'.
Proof.
  intros Hb H. revert i. induction H as [|d d' ds ds' Hd _ IH]; intros i; simpl; [lia|].
  specialize (IH (S i)).
  assert (0 <= base ^ Z.of_nat i) by (apply Z.pow_nonneg; exact Hb). nia.
Qed.

Lemma digits_mono (n : Z) (bounds : list (Q * Q)) (vb : list (list Q))
  (obs obs' : list Q) (ds ds' : list Z) :
  Forall (fun lh => (fst lh <= snd lh)%Q) bounds ->
  Forall2 (fun lh bins => np.linspace (fst lh) (snd lh) (n + 1) = Ok bins) bounds vb ->
  Forall2 Qle obs obs' ->
  traverse (fun xb => np.digitize (fst xb) (snd xb)) (zip obs vb) = Ok ds ->
  traverse (fun xb => np.digitize (fst xb) (snd xb)) (zip obs' vb) = Ok ds' ->
  Forall2 Z.le ds ds'.
Proof.
  intros Hord Hvb Hobs. revert bounds vb ds ds' Hord Hvb.
  induction Hobs as [|x y obs obs' Hxy _ IH]; intros bounds vb ds ds' Hord Hvb Hds Hds'.
  - simpl in Hds, Hds'. injection Hds as <-. injection Hds' as <-. constructor.
  - destruct vb as [|bins vb].
    + simpl in Hds, Hds'. injection Hds as <-. injection Hds' as <-. constructor.
    + inversion Hvb as [|[l h] ? bounds' ? Hb Hvb']; subst. simpl in Hb.
      inversion Hord as [|? ? Hlh Hord']; subst. simpl in Hlh.
      cbn [zip zip_with traverse fst snd] in Hds, Hds'.
      rewrite (edges_digitize l h n bins Hb Hlh) in Hds, Hds'. simpl in Hds, Hds'.
      unbind Hds as t Ht. injection Hds as <-.
      unbind Hds' as t' Ht'. injection Hds' as <-.
      constructor.
      * pose proof (searchsorted_right_mono bins x y Hxy). lia.
      * apply (IH bounds' vb t t'); assumption.
Qed.

(** X4. On a constructed discretizer with [n_bins >= 0] whose bounds are
    ordered in every dimension, the discretization is monotone: if every
    component of one vector is at most the corresponding component of
    another, then every bin index of the first is at most that of the
    second; and as long as the number of states for that many indices is
    at most [2^63], so is the encoded state. *)
Theorem observation_monotone
  (env : spaces) (elow ehigh : list Q) (nb : Z) (low high : option (list Q))
  (w : DiscretizedObservationWrapper.t) (obs obs' : list Q) (ds ds' : list Z) :
  observation_space env = Box elow ehigh ->
  DiscretizedObservationWrapper.__init__ env nb low high = Ok w ->
  0 <= nb ->
  Forall (fun lh => (fst lh <= snd lh)%Q)
         (zip (DiscretizedObservationWrapper.given elow low)
              (DiscretizedObservationWrapper.given ehigh high)) ->
  Forall2 Qle obs obs' ->
  DiscretizedObservationWrapper.digits w obs = Ok ds ->
  DiscretizedObservationWrapper.digits w obs' = Ok ds' ->
  Forall2 Z.le ds ds' /\
  ((nb + 2) ^ Z.of_nat (length ds) <= 2 ^ 63 ->
   exists s s',
     DiscretizedObservationWrapper.observation w obs = Ok (np.Int s) /\
     DiscretizedObservationWrapper.observation w obs' = Ok (np.Int s') /\
     s <= s').
Proof.
  intros Hbox Hinit Hnb Hord Hobs Hds Hds'.
  pose proof (init_val_bins env nb low high w Hinit elow ehigh Hbox) as Hvb.
  assert (Hle : Forall2 Z.le ds ds').
  { unfold DiscretizedObservationWrapper.digits in Hds, Hds'.
    eapply digits_mono; eassumption. }
  split; [exact Hle|]. intros Hfit.
  assert (Hrange : forall o l, DiscretizedObservationWrapper.digits w o = Ok l ->
            Forall (fun d => 0 <= d < nb + 2) l).
  { intros o l Hl.
    destruct (digits_total env nb low high w Hinit o Hnb) as (l' & Hl' & _ & Hall).
    rewrite Hl in Hl'. injection Hl' as <-.
    eapply Forall_impl; [exact Hall|]. simpl. intros; lia. }
  pose proof (init_n_bins env nb low high w Hinit) as Hnbw.
  exists (mixed_radix (nb + 2) 0 ds), (mixed_radix (nb + 2) 0 ds').
  unfold DiscretizedObservationWrapper.observation. rewrite Hds, Hds'. simpl.
  rewrite (convert_mixed_radix w (nb + 2) ds);
    [|rewrite Hnbw; reflexivity|exact (Hrange _ _ Hds)|exact Hfit].
  rewrite (convert_mixed_radix w (nb + 2) ds');
    [|rewrite Hnbw; reflexivity|exact (Hrange _ _ Hds')
     |rewrite <- (Forall2_length _ _ _ Hle); exact Hfit].
  split; [reflexivity|]. split; [reflexivity|].
  apply mixed_radix_mono; [lia|exact Hle].
Qed.

Lemma observation_monotone_witness :
  exists w,
    DiscretizedObservationWrapper.__init__ box_spaces 8
      (Some [-24 # 10; -2]%Q) (Some [24 # 10; 2]%Q) = Ok w /\
    DiscretizedObservationWrapper.digits w [-1; 0]%Q = Ok [3; 5] /\
    DiscretizedObservationWrapper.digits w [1; 7]%Q = Ok [6; 9] /\
    Forall2 Z.le [3; 5] [6; 9].
Proof.
  eassert (Hinit : DiscretizedObservationWrapper.__init__ box_spaces 8
                     (Some [-24 # 10; -2]%Q) (Some [24 # 10; 2]%Q) = Ok _).
  { vm_compute. reflexivity. }
  match type of Hinit with
  | _ = Ok ?w0 =>
      assert (Hs : DiscretizedObservationWrapper.digits w0 [-1; 0]%Q = Ok [3; 5])
        by (vm_compute; reflexivity);
      assert (Hs' : DiscretizedObservationWrapper.digits w0 [1; 7]%Q = Ok [6; 9])
        by (vm_compute; reflexivity);
      destruct (observation_monotone box_spaces _ _ 8 _ _ w0 [-1; 0]%Q [1; 7]%Q _ _
                  eq_refl Hinit ltac:(lia)
                  ltac:(repeat constructor; unfold Qle; simpl; lia)
                  ltac:(repeat constructor; unfold Qle; simpl; lia) Hs Hs')
        as [Hle _]
  end.
  eexists. split; [exact Hinit|]. split; [exact Hs|]. split; [exact Hs'|exact Hle].
Defined.

(** ** Bounds given in the wrong order *)

Lemma searchsorted_right_zero_iff (a : list Q) (v : Q) (z : Q) (t : list Q) :
  a = z :: t -> (np.searchsorted_right a v = 0%nat <-> (v < z)%Q).
Proof.
  intros ->. simpl. destruct (Qle_bool z v) eqn:E.
  - apply Qle_bool_iff in E. split; [discriminate|lra].
  - apply Qle_bool_false in E. tauto.
Qed.

Lemma searchsorted_right_full_iff (a : list Q) (v : Q) :
  np.searchsorted_right a v = length a <-> Forall (fun x => (x <= v)%Q) a.
Proof.
  split; [|apply searchsorted_right_all].
  induction a as [|x a IH]; simpl; [constructor|].
  destruct (Qle_bool x v) eqn:E; [|discriminate].
  intros H. constructor; [apply Qle_bool_iff; exact E|]. apply IH. lia.
Qed.

Lemma rev_head {A : Type} (a : list A) (z : A) :
  a !! (length a - 1)%nat = Some z -> exists t, rev a = z :: t.
Proof.
  destruct a as [|x a] using rev_ind; [discriminate|].
  rewrite length_app. simpl. intros H.
  rewrite lookup_app_r in H by lia.
  replace (length a + 1 - 1 - length a)%nat with 0%nat in H by lia.
  injection H as <-. exists (rev a). apply rev_unit.
Qed.

Lemma Forall_rev_iff {A : Type} (P : A -> Prop) (a : list A) :
  Forall P (rev a) <-> Forall P a.
Proof.
  rewrite !List.Forall_forall. split; intros H x Hx; apply H.
  - apply in_rev in Hx. exact Hx.
  - apply in_rev. exact Hx.
Qed.

(** X5. The constructor accepts bounds in the wrong order, and the
    numbering of the bins is then reversed: in a dimension with
    [low > high] (and [n_bins >= 1]) a component gets index 0 exactly when
    it is at least [low], and index [n_bins + 1] exactly when it is below
    [high]. *)
Theorem swapped_bounds_reverse_bins
  (env : spaces) (elow ehigh : list Q) (nb : Z) (low high : option (list Q))
  (w : DiscretizedObservationWrapper.t)
  (obs : list Q) (ds : list Z) (i : nat) (x l h : Q) (d : Z) :
  observation_space env = Box elow ehigh ->
  DiscretizedObservationWrapper.__init__ env nb low high = Ok w ->
  1 <= nb ->
  DiscretizedObservationWrapper.given elow low !! i = Some l ->
  DiscretizedObservationWrapper.given ehigh high !! i = Some h ->
  (h < l)%Q ->
  DiscretizedObservationWrapper.digits w obs = Ok ds ->
  obs !! i = Some x ->
  ds !! i = Some d ->
  (d = 0 <-> (l <= x)%Q) /\ (d = nb + 1 <-> (x < h)%Q).
Proof.
  intros Hbox Hinit Hnb Hl Hh Hhl Hds Hx Hd.
  pose proof (init_val_bins env nb low high w Hinit elow ehigh Hbox) as Hvb.
  assert (Hz : zip (DiscretizedObservationWrapper.given elow low)
                   (DiscretizedObservationWrapper.given ehigh high) !! i = Some (l, h)).
  { rewrite lookup_zip_with, Hl. simpl. rewrite Hh. reflexivity. }
  destruct (Forall2_lookup_l _ _ _ _ _ Hvb Hz) as (bins & Hb & Hlin). simpl in Hlin.
  pose proof (digits_lookup w obs ds i x bins d Hds Hx Hb Hd) as Hdig.
  pose proof (linspace_length _ _ _ _ Hlin) as Hlen.
  destruct (lookup_lt_is_Some_2 bins 0%nat) as [e0 He0]; [lia|].
  destruct (lookup_lt_is_Some_2 bins (Z.to_nat nb)) as [en Hen]; [lia|].
  pose proof (linspace_first _ _ _ _ _ Hlin He0) as Hfirst.
  assert (Hlast : (en == h)%Q).
  { apply (linspace_last l h (nb + 1) bins); [lia|exact Hlin|].
    replace (nb + 1 - 1) with nb by lia. exact Hen. }
  assert (Hnd : np.nondecreasing bins = false).
  { destruct (np.nondecreasing bins) eqn:E; [|reflexivity].
    pose proof (nondecreasing_elim bins 0 (Z.to_nat nb) e0 en E He0 Hen ltac:(lia)). lra. }
  assert (Hni : np.nonincreasing bins = true).
  { apply (linspace_nonincreasing l h (nb + 1)); [lra|exact Hlin]. }
  unfold np.digitize in Hdig. rewrite Hnd, Hni in Hdig. injection Hdig as Hd'.
  pose proof (searchsorted_right_le (rev bins) x) as Hle. rewrite length_rev in Hle.
  assert (Hall : forall e, In e bins -> (h <= e <= l)%Q).
  { intros e Hin. apply list_elem_of_In, list_elem_of_lookup_1 in Hin.
    destruct Hin as [j Hj]. pose proof (lookup_lt_Some _ _ _ Hj) as Hjlt.
    rewrite (linspace_lookup _ _ _ _ _ _ Hlin Hj).
    replace (nb + 1 - 1) with nb by lia.
    pose proof (step_positive h l nb Hnb Hhl) as Hs.
    assert (Hopp : ((h - l) / inject_Z nb == - ((l - h) / inject_Z nb))%Q)
      by (unfold Qdiv; ring).
    rewrite Hopp.
    assert (Hfix : ((l - h) / inject_Z nb * inject_Z nb == l - h)%Q).
    { field. unfold Qeq. simpl. lia. }
    pose proof (inject_Z_nat_nonneg j).
    assert (Hj' : (inject_Z (Z.of_nat j) <= inject_Z nb)%Q) by (rewrite <- Zle_Qle; lia).
    set (s := ((l - h) / inject_Z nb)%Q) in *.
    set (a := inject_Z (Z.of_nat j)) in *. set (b := inject_Z nb) in *.
    split; nra. }
  assert (Hin0 : In e0 bins).
  { apply list_elem_of_In. eapply list_elem_of_lookup_2. exact He0. }
  split.
  - assert (Hfull : np.searchsorted_right (rev bins) x = length (rev bins)
                    <-> (l <= x)%Q).
    { rewrite searchsorted_right_full_iff, Forall_rev_iff, List.Forall_forall. split.
      - intros H. specialize (H e0 Hin0). lra.
      - intros H e Hin. destruct (Hall e Hin). lra. }
    rewrite length_rev in Hfull. rewrite <- Hfull. lia.
  - destruct (rev_head bins en) as [t Ht].
    { replace (length bins - 1)%nat with (Z.to_nat nb) by lia. exact Hen. }
    pose proof (searchsorted_right_zero_iff (rev bins) x en t Ht) as Hzero.
    assert (np.searchsorted_right (rev bins) x = 0%nat <-> (x < h)%Q) as Hz'.
    { rewrite Hzero. split; intros; lra. }
    rewrite <- Hz'. lia.
Qed.

Lemma swapped_bounds_reverse_bins_witness :
  exists w,
    DiscretizedObservationWrapper.__init__ box_spaces 8
      (Some [24 # 10; -2]%Q) (Some [-24 # 10; 2]%Q) = Ok w /\
    DiscretizedObservationWrapper.digits w [100; 0]%Q = Ok [0; 5] /\
    (0 = 0 <-> (24 # 10 <= 100)%Q).
Proof.
  eassert (Hinit : DiscretizedObservationWrapper.__init__ box_spaces 8
                     (Some [24 # 10; -2]%Q) (Some [-24 # 10; 2]%Q) = Ok _).
  { vm_compute. reflexivity. }
  match type of Hinit with
  | _ = Ok ?w0 =>
      assert (Hds : DiscretizedObservationWrapper.digits w0 [100; 0]%Q = Ok [0; 5])
        by (vm_compute; reflexivity);
      destruct (swapped_bounds_reverse_bins box_spaces _ _ 8 _ _ w0 [100; 0]%Q [0; 5]
                  0 100%Q (24 # 10)%Q (-24 # 10)%Q 0 eq_refl Hinit ltac:(lia)
                  eq_refl eq_refl ltac:(unfold Qlt; simpl; lia) Hds eq_refl eq_refl)
        as [Hzero _]
  end.
  eexists. split; [exact Hinit|]. split; [exact Hds|exact Hzero].
Defined.

(** ** Vectors of the wrong length *)

Lemma zip_app_long {A B : Type} (l extra : list A) (k : list B) :
  (length k <= length l)%nat -> zip (l ++ extra) k = zip l k.
Proof.
  revert k. induction l as [|x l IH]; intros k H.
  - destruct k; [|simpl in H; lia]. destruct extra; reflexivity.
  - destruct k as [|y k]; [reflexivity|]. simpl. f_equal. apply IH. simpl in H. lia.
Qed.

(** X6. [observation] does not check the length of its argument: the
    components beyond the number of dimensions are ignored, and a vector
    that is too short is encoded from the components it has, so that [k]
    components give a state below [(n_bins+2)^k] (as long as that number
    is at most [2^63]). *)
Theorem observation_ignores_length
  (env : spaces) (nb : Z) (low high : option (list Q))
  (w : DiscretizedObservationWrapper.t) (obs : list Q) :
  DiscretizedObservationWrapper.__init__ env nb low high = Ok w ->
  0 <= nb ->
  ((length (DiscretizedObservationWrapper.val_bins w) <= length obs)%nat ->
   forall extra,
     DiscretizedObservationWrapper.observation w (obs ++ extra)
     = DiscretizedObservationWrapper.observation w obs) /\
  ((length obs <= length (DiscretizedObservationWrapper.val_bins w))%nat ->
   (nb + 2) ^ Z.of_nat (length obs) <= 2 ^ 63 ->
   exists s, DiscretizedObservationWrapper.observation w obs = Ok (np.Int s) /\
             0 <= s < (nb + 2) ^ Z.of_nat (length obs)).
Proof.
  intros Hinit Hnb. split.
  - intros Hlen extra.
    unfold DiscretizedObservationWrapper.observation, DiscretizedObservationWrapper.digits.
    rewrite zip_app_long by exact Hlen. reflexivity.
  - intros Hlen Hfit.
    destruct (digits_total env nb low high w Hinit obs Hnb) as (ds & Hds & Hl & Hall).
    unfold DiscretizedObservationWrapper.observation. rewrite Hds. simpl.
    rewrite length_zip_with in Hl.
    assert (Hk : length ds = length obs) by lia.
    assert (Hr : Forall (fun d => 0 <= d < nb + 2) ds).
    { eapply Forall_impl; [exact Hall|]. simpl. intros; lia. }
    rewrite (convert_mixed_radix w (nb + 2) ds);
      [|rewrite (init_n_bins env nb low high w Hinit); reflexivity|exact Hr
       |rewrite Hk; exact Hfit].
    eexists. split; [reflexivity|]. rewrite <- Hk.
    apply mixed_radix_range; [lia|exact Hr].
Qed.

Lemma observation_ignores_length_witness :
  exists w,
    DiscretizedObservationWrapper.__init__ box_spaces 8
      (Some [-24 # 10; -2]%Q) (Some [24 # 10; 2]%Q) = Ok w /\
    DiscretizedObservationWrapper.observation w ([-1; 0] ++ [1000; -3])%Q
    = DiscretizedObservationWrapper.observation w [-1; 0]%Q.
Proof.
  eassert (Hinit : DiscretizedObservationWrapper.__init__ box_spaces 8
                     (Some [-24 # 10; -2]%Q) (Some [24 # 10; 2]%Q) = Ok _).
  { vm_compute. reflexivity. }
  eexists. split; [exact Hinit|].
  apply (proj1 (observation_ignores_length box_spaces 8 _ _ _ [-1; 0]%Q Hinit
                  ltac:(lia))).
  simpl. lia.
Defined.

(** ** Indices outside the table, and negative indices *)

Lemma index_out (n : nat) (i : Z) :
  ~ (- Z.of_nat n <= i < Z.of_nat n) -> np.index n i = Raise IndexError.
Proof.
  intros H. unfold np.index.
  destruct ((0 <=? i) && (i <? Z.of_nat n)) eqn:E.
  - apply andb_prop in E. destruct E as [E1 E2].
    apply Z.leb_le in E1. apply Z.ltb_lt in E2. lia.
  - destruct ((- Z.of_nat n <=? i) && (i <? 0)) eqn:E'; [|reflexivity].
    apply andb_prop in E'. destruct E' as [E1 E2].
    apply Z.leb_le in E1. apply Z.ltb_lt in E2. lia.
Qed.

Lemma index_wrap (n : nat) (i : Z) :
  0 <= i < Z.of_nat n -> np.index n (i - Z.of_nat n) = np.index n i.
Proof.
  intros H. rewrite (index_valid n i H). unfold np.index.
  destruct (0 <=? i - Z.of_nat n) eqn:E1; [apply Z.leb_le in E1; lia|].
  cbn [andb].
  destruct (- Z.of_nat n <=? i - Z.of_nat n) eqn:E2; [|apply Z.leb_gt in E2; lia].
  destruct (i - Z.of_nat n <? 0) eqn:E3; [|apply Z.ltb_ge in E3; lia].
  cbn [andb]. f_equal. f_equal. lia.
Qed.

Section Wrap.
Variables (tab : list (list Q)) (ns na : Z).
Hypothesis Hshape : shaped tab ns na.

Lemma row_wrap (i : Z) : 0 <= i < ns -> np.row tab (i - ns) = np.row tab i.
Proof.
  intros Hi. destruct Hshape as [Hn _]. unfold np.row. rewrite <- Hn.
  rewrite index_wrap by lia. reflexivity.
Qed.

Lemma row_out (i : Z) : ~ (- ns <= i < ns) -> np.row tab i = Raise IndexError.
Proof.
  intros Hi. destruct Hshape as [Hn _]. unfold np.row.
  rewrite index_out by lia. reflexivity.
Qed.

Lemma row_in (i : Z) :
  - ns <= i < ns -> exists r, np.row tab i = Ok r /\ Z.of_nat (length r) = na.
Proof.
  intros Hi. destruct Hshape as [Hn Hrows]. unfold np.row.
  destruct (np.index (length tab) i) as [k| |] eqn:Ek.
  - pose proof (index_lt _ _ _ Ek) as Hk.
    destruct (lookup_lt_is_Some_2 tab k Hk) as [r Hr].
    simpl. rewrite Hr. exists r. split; [reflexivity|].
    exact (Forall_lookup_1 _ _ _ _ Hrows Hr).
  - unfold np.index in Ek.
    destruct ((0 <=? i) && (i <? Z.of_nat (length tab))) eqn:E1; [discriminate|].
    destruct ((- Z.of_nat (length tab) <=? i) && (i <? 0)) eqn:E2; [discriminate|].
    apply andb_false_iff in E1. apply andb_false_iff in E2.
    rewrite Z.leb_gt, Z.ltb_ge in E1. rewrite Z.leb_gt, Z.ltb_ge in E2. lia.
  - unfold np.index in Ek.
    destruct ((0 <=? i) && (i <? Z.of_nat (length tab))); [discriminate|].
    destruct ((- Z.of_nat (length tab) <=? i) && (i <? 0)); discriminate.
Qed.

Lemma get_wrap (i j : Z) :
  0 <= i < ns -> 0 <= j < na -> np.get tab (i - ns) (j - na) = np.get tab i j.
Proof.
  intros Hi Hj. unfold np.get. rewrite row_wrap by exact Hi.
  destruct (row_in i ltac:(lia)) as (r & Hr & Hlen). rewrite Hr. simpl.
  rewrite <- Hlen. rewrite index_wrap by lia. reflexivity.
Qed.

Lemma set_wrap (i j : Z) (v : Q) :
  0 <= i < ns -> 0 <= j < na -> np.set tab (i - ns) (j - na) v = np.set tab i j v.
Proof.
  intros Hi Hj. destruct Hshape as [Hn Hrows]. unfold np.set.
  rewrite <- Hn. rewrite index_wrap by lia.
  destruct (np.index (length tab) i) as [k| |]; simpl; try reflexivity.
  destruct (tab !! k) as [r|] eqn:Hr; [|reflexivity].
  pose proof (Forall_lookup_1 _ _ _ _ Hrows Hr) as Hlen. simpl in Hlen.
  rewrite <- Hlen. rewrite index_wrap by lia. reflexivity.
Qed.

Lemma get_out (i j : Z) :
  ~ (- ns <= i < ns) \/ ~ (- na <= j < na) -> np.get tab i j = Raise IndexError.
Proof.
  intros H. unfold np.get.
  destruct (Z_le_dec (- ns) i) as [H1|H1]; [|rewrite row_out by lia; reflexivity].
  destruct (Z_lt_dec i ns) as [H2|H2]; [|rewrite row_out by lia; reflexivity].
  destruct (row_in i ltac:(lia)) as (r & Hr & Hlen). rewrite Hr. simpl.
  rewrite index_out by lia. reflexivity.
Qed.
End Wrap.

(** X8. Negative indices are not rejected: on a table with [n_states]
    rows and [n_actions] columns, [state - n_states], [action - n_actions]
    and [new_state - n_states] address the same cells as [state], [action]
    and [new_state], so an update or a greedy choice made with them is the
    one made with the in-range indices. *)
Theorem negative_indices_alias
  (p : QLearnPolicy.t) (state action new_state : Z) (reward : Q) (done training : bool)
  (d : draw) :
  shaped (QLearnPolicy.Qtab p) (QLearnPolicy.n_states p) (QLearnPolicy.n_actions p) ->
  0 <= state < QLearnPolicy.n_states p ->
  0 <= action < QLearnPolicy.n_actions p ->
  0 <= new_state < QLearnPolicy.n_states p ->
  QLearnPolicy._update_q_value p (state - QLearnPolicy.n_states p)
    (action - QLearnPolicy.n_actions p) (new_state - QLearnPolicy.n_states p) reward done
  = QLearnPolicy._update_q_value p state action new_state reward done /\
  QLearnPolicy.act p (state - QLearnPolicy.n_states p) training d
  = QLearnPolicy.act p state training d.
Proof.
  intros Hshape Hs Ha Hn. split.
  - rewrite !update_q_value_body.
    rewrite (get_wrap _ _ _ Hshape state action Hs Ha).
    rewrite (row_wrap _ _ _ Hshape new_state Hn).
    destruct done.
    + destruct (np.get (QLearnPolicy.Qtab p) state action); cbn [bind];
        try reflexivity.
      rewrite (set_wrap _ _ _ Hshape state action _ Hs Ha). reflexivity.
    + destruct (np.row (QLearnPolicy.Qtab p) new_state) as [nr| |]; cbn [bind];
        try reflexivity.
      destruct (np.max (a_gtb exact) nr); cbn [bind]; try reflexivity.
      destruct (np.get (QLearnPolicy.Qtab p) state action); cbn [bind];
        try reflexivity.
      rewrite (set_wrap _ _ _ Hshape state action _ Hs Ha). reflexivity.
  - unfold QLearnPolicy.act. rewrite (row_wrap _ _ _ Hshape state Hs). reflexivity.
Qed.

Lemma negative_indices_alias_witness :
  exists p,
    QLearnPolicy.__init__ toy_spaces (99 # 100) (1 # 2) (998 # 1000) 1 (5 # 100) = Ok p /\
    QLearnPolicy._update_q_value p (2 - 3) (1 - 2) (0 - 3) 1 false
    = QLearnPolicy._update_q_value p 2 1 0 1 false.
Proof.
  eassert (Hinit : QLearnPolicy.__init__ toy_spaces (99 # 100) (1 # 2) (998 # 1000)
                     1 (5 # 100) = Ok _).
  { vm_compute. reflexivity. }
  destruct (init_shaped _ _ _ _ _ _ _ Hinit) as [Hshape _].
  eexists. split; [exact Hinit|].
  exact (proj1 (negative_indices_alias _ 2 1 0 1 false true (toy_rng 0) Hshape
                  ltac:(simpl; lia) ltac:(simpl; lia) ltac:(simpl; lia))).
Defined.

(** X9. Indices that numpy cannot resolve make the update raise
    [IndexError]: a terminal update with [state] outside
    [-n_states .. n_states-1] or [action] outside
    [-n_actions .. n_actions-1], and a non-terminal update with
    [new_state] outside [-n_states .. n_states-1] (whatever [state] and
    [action] are) or, when the table has at least one column and
    [new_state] is resolvable, with an unresolvable [state] or [action]. *)
Theorem update_index_errors
  (p : QLearnPolicy.t) (state action new_state : Z) (reward : Q) :
  shaped (QLearnPolicy.Qtab p) (QLearnPolicy.n_states p) (QLearnPolicy.n_actions p) ->
  let ns := QLearnPolicy.n_states p in
  let na := QLearnPolicy.n_actions p in
  let bad := ~ (- ns <= state < ns) \/ ~ (- na <= action < na) in
  (bad ->
   QLearnPolicy._update_q_value p state action new_state reward true
   = Raise IndexError) /\
  (~ (- ns <= new_state < ns) ->
   QLearnPolicy._update_q_value p state action new_state reward false
   = Raise IndexError) /\
  (bad -> - ns <= new_state < ns -> 0 < na ->
   QLearnPolicy._update_q_value p state action new_state reward false
   = Raise IndexError).
Proof.
  intros Hshape ns na bad. subst bad. split; [|split].
  - intros Hbad. rewrite update_q_value_body.
    rewrite (get_out _ _ _ Hshape state action Hbad). reflexivity.
  - intros Hbad. rewrite update_q_value_body.
    rewrite (row_out _ _ _ Hshape new_state Hbad). reflexivity.
  - intros Hbad Hn Hna. rewrite update_q_value_body.
    destruct (row_in _ _ _ Hshape new_state Hn) as (r & Hr & Hlen). rewrite Hr. cbn [bind].
    destruct (max_total r) as [m Hm].
    { intros ->. simpl in Hlen. fold na in Hlen. lia. }
    rewrite Hm. cbn [bind].
    rewrite (get_out _ _ _ Hshape state action Hbad). reflexivity.
Qed.

Lemma update_index_errors_witness :
  exists p,
    QLearnPolicy.__init__ toy_spaces (99 # 100) (1 # 2) (998 # 1000) 1 (5 # 100) = Ok p /\
    QLearnPolicy._update_q_value p 0 0 3 1 false = Raise IndexError /\
    QLearnPolicy._update_q_value p 0 (-3) 3 1 true = Raise IndexError.
Proof.
  eassert (Hinit : QLearnPolicy.__init__ toy_spaces (99 # 100) (1 # 2) (998 # 1000)
                     1 (5 # 100) = Ok _).
  { vm_compute. reflexivity. }
  destruct (init_shaped _ _ _ _ _ _ _ Hinit) as [Hshape _].
  eexists. split; [exact Hinit|]. split.
  - apply (proj1 (proj2 (update_index_errors _ 0 0 3 1 Hshape))). simpl. lia.
  - apply (proj1 (update_index_errors _ 0 (-3) 3 1 Hshape)). right. simpl. lia.
Defined.

(** ** Exploration *)

(** X11. When [act] explores (training, [epsilon > 0] and the random
    number below [epsilon]) it does not look at the table: with
    [n_actions > 0] it returns the same in-range action for every state,
    even for a state that is no row of the table and makes the greedy
    branch raise [IndexError]; every in-range action is returned for some
    outcome of the sampling draw; and with [n_actions <= 0] it raises
    [ValueError]. *)
Theorem act_exploration_branch
  (p : QLearnPolicy.t) (state : Z) (d : draw) :
  (0 < QLearnPolicy.epsilon p)%Q ->
  (rand d < QLearnPolicy.epsilon p)%Q ->
  (0 < QLearnPolicy.n_actions p ->
   (exists a, 0 <= a < QLearnPolicy.n_actions p /\
              forall state', QLearnPolicy.act p state' true d = Ok a) /\
   (forall a, 0 <= a < QLearnPolicy.n_actions p ->
              exists k, QLearnPolicy.act p state true
                          {| rand := rand d; sample := k; pick := pick d |} = Ok a)) /\
  (QLearnPolicy.n_actions p <= 0 ->
   QLearnPolicy.act p state true d = Raise ValueError) /\
  (shaped (QLearnPolicy.Qtab p) (QLearnPolicy.n_states p) (QLearnPolicy.n_actions p) ->
   ~ (- QLearnPolicy.n_states p <= state < QLearnPolicy.n_states p) ->
   QLearnPolicy.act p state false d = Raise IndexError).
Proof.
  intros Heps Hrand.
  assert (Hex : forall k, QLearnPolicy.explores p true
                  {| rand := rand d; sample := k; pick := pick d |} = true).
  { intros k. unfold QLearnPolicy.explores. simpl.
    apply Qlt_bool_iff in Heps. apply Qlt_bool_iff in Hrand.
    rewrite Heps, Hrand. reflexivity. }
  assert (Hex' : QLearnPolicy.explores p true d = true).
  { destruct d as [u sm pk]. apply (Hex sm). }
  split; [|split].
  - intros Hn. split.
    + exists (Z.of_nat (sample d) mod QLearnPolicy.n_actions p).
      split; [apply Z.mod_pos_bound; exact Hn|].
      intros state'. unfold QLearnPolicy.act. rewrite Hex'. unfold np.randint.
      destruct (QLearnPolicy.n_actions p <=? 0) eqn:E; [apply Z.leb_le in E; lia|].
      reflexivity.
    + intros a Ha. exists (Z.to_nat a). unfold QLearnPolicy.act. rewrite Hex.
      unfold np.randint. cbn [sample].
      destruct (QLearnPolicy.n_actions p <=? 0) eqn:E; [apply Z.leb_le in E; lia|].
      rewrite Z2Nat.id by lia. rewrite Z.mod_small by lia. reflexivity.
  - intros Hn. unfold QLearnPolicy.act. rewrite Hex'. unfold np.randint.
    apply Z.leb_le in Hn. rewrite Hn. reflexivity.
  - intros Hshape Hout. unfold QLearnPolicy.act, QLearnPolicy.explores. simpl.
    rewrite (row_out _ _ _ Hshape state Hout). reflexivity.
Qed.

Lemma act_exploration_branch_witness :
  exists p a,
    QLearnPolicy.__init__ toy_spaces (99 # 100) (1 # 2) (998 # 1000) 1 (5 # 100) = Ok p /\
    0 <= a < 2 /\
    QLearnPolicy.act p 17 true (toy_rng 3) = Ok a.
Proof.
  eassert (Hinit : QLearnPolicy.__init__ toy_spaces (99 # 100) (1 # 2) (998 # 1000)
                     1 (5 # 100) = Ok _).
  { vm_compute. reflexivity. }
  match type of Hinit with
  | _ = Ok ?p0 =>
      destruct (act_exploration_branch p0 0 (toy_rng 3)
                  ltac:(unfold Qlt; simpl; lia) ltac:(unfold Qlt; simpl; lia))
        as (Hpos & _ & _);
      destruct (Hpos ltac:(simpl; lia)) as [(a & Ha & Hact) _]
  end.
  eexists. exists a. split; [exact Hinit|]. split; [exact Ha|]. apply Hact.
Defined.

(** ** Greedy choice before and after learning *)

Lemma update_shaped (p p' : QLearnPolicy.t) (s a s' : Z) (reward : Q) (done : bool) :
  QLearnPolicy._update_q_value p s a s' reward done = Ok p' ->
  shaped (QLearnPolicy.Qtab p) (QLearnPolicy.n_states p) (QLearnPolicy.n_actions p) ->
  shaped (QLearnPolicy.Qtab p') (QLearnPolicy.n_states p') (QLearnPolicy.n_actions p').
Proof.
  intros Hup [Hn Hrows].
  destruct (update_inv_any _ _ _ _ _ _ _ Hup)
    as (ki & kj & r & q & target & Hr & _ & -> & _).
  simpl. split.
  - rewrite length_insert. exact Hn.
  - apply Forall_insert; [exact Hrows|].
    rewrite length_insert. exact (Forall_lookup_1 _ _ _ _ Hrows Hr).
Qed.

(** The greedy branch of [act], spelled out. *)
Lemma act_greedy_choice (p : QLearnPolicy.t) (state : Z) (training : bool) (d : draw)
  (r : list Q) :
  QLearnPolicy.explores p training d = false ->
  0 <= state ->
  QLearnPolicy.Qtab p !! Z.to_nat state = Some r ->
  Z.of_nat (length r) = QLearnPolicy.n_actions p ->
  r <> [] ->
  exists m acts,
    np.max (a_gtb exact) r = Ok m /\
    QLearnPolicy.actions_with_max_q p r m = Ok acts /\
    QLearnPolicy.act p state training d = np.choice acts (pick d).
Proof.
  intros Hex Hs Hr Hlen Hne.
  destruct (max_total r Hne) as [m Hm].
  destruct (actions_total p r m Hlen) as [acts Hacts].
  exists m, acts. split; [exact Hm|]. split; [exact Hacts|].
  unfold QLearnPolicy.act. rewrite Hex.
  rewrite (row_valid _ state r Hs Hr). cbn [bind]. rewrite Hm. cbn [bind].
  rewrite Hacts. reflexivity.
Qed.

Lemma greedy_unique (p : QLearnPolicy.t) (state action : Z) (d : draw) :
  shaped (QLearnPolicy.Qtab p) (QLearnPolicy.n_states p) (QLearnPolicy.n_actions p) ->
  0 <= state < QLearnPolicy.n_states p ->
  0 <= action < QLearnPolicy.n_actions p ->
  (forall r q q' j,
      QLearnPolicy.Qtab p !! Z.to_nat state = Some r ->
      r !! Z.to_nat action = Some q -> r !! j = Some q' -> j <> Z.to_nat action ->
      (q' < q)%Q) ->
  QLearnPolicy.act p state false d = Ok action.
Proof.
  intros Hshape Hs Ha Huniq.
  destruct (shaped_cell _ _ _ _ _ Hshape Hs Ha) as (r & q & Hr & Hlen & Hq).
  assert (Hne : r <> []) by (intros ->; discriminate).
  destruct (act_greedy_choice p state false d r eq_refl ltac:(lia) Hr Hlen Hne)
    as (m & acts & Hm & Hacts & Hact).
  rewrite Hact.
  destruct (choice_total acts (pick d)
              (actions_nonempty p r m Hlen Hm acts Hacts)) as [a Hch].
  rewrite Hch. f_equal.
  apply choice_In in Hch. apply (actions_spec p r m Hlen acts a Hacts) in Hch.
  destruct Hch as (i & qi & -> & Hqi & Heq).
  destruct (Nat.eq_dec i (Z.to_nat action)) as [->|Hne']; [lia|].
  pose proof (Huniq r q qi i Hr Hq Hqi Hne') as Hlt.
  destruct (max_maximum r m Hm) as [_ Hmax].
  assert (Hin : In q r).
  { apply list_elem_of_In. eapply list_elem_of_lookup_2. exact Hq. }
  specialize (Hmax q Hin). lra.
Qed.

(** X12. On the all-zero table of a fresh learner every in-range action is
    a possible greedy choice in every in-range state; after one terminal
    update with [alpha * reward > 0] the greedy choice in the updated state
    is the updated action, for every outcome of the tie-breaking draw. *)
Theorem greedy_choice_after_first_reward
  (p : QLearnPolicy.t) (state action : Z) :
  shaped (QLearnPolicy.Qtab p) (QLearnPolicy.n_states p) (QLearnPolicy.n_actions p) ->
  Forall (Forall (fun c => c = 0%Q)) (QLearnPolicy.Qtab p) ->
  0 <= state < QLearnPolicy.n_states p ->
  0 <= action < QLearnPolicy.n_actions p ->
  (forall d, exists k,
      QLearnPolicy.act p state false
        {| rand := rand d; sample := sample d; pick := k |} = Ok action) /\
  (forall new_state reward p',
      (0 < QLearnPolicy.alpha p * reward)%Q ->
      QLearnPolicy._update_q_value p state action new_state reward true = Ok p' ->
      forall d, QLearnPolicy.act p' state false d = Ok action).
Proof.
  intros Hshape Hzero Hs Ha.
  destruct (shaped_cell _ _ _ _ _ Hshape Hs Ha) as (r & q & Hr & Hlen & Hq).
  assert (Hrz : Forall (fun c => c = 0%Q) r) by exact (Forall_lookup_1 _ _ _ _ Hzero Hr).
  assert (Hq0 : q = 0%Q) by exact (Forall_lookup_1 _ _ _ _ Hrz Hq).
  subst q. split.
  - intros d.
    assert (Hne : r <> []) by (intros ->; discriminate).
    destruct (max_total r Hne) as [m Hm].
    destruct (actions_total p r m Hlen) as [acts Hacts].
    assert (Hm0 : m = 0%Q).
    { destruct (max_maximum r m Hm) as [Hin _].
      exact (proj1 (List.Forall_forall _ _) Hrz m Hin). }
    assert (Hin : In action acts).
    { apply (actions_spec p r m Hlen acts action Hacts).
      exists (Z.to_nat action), 0%Q. rewrite Z2Nat.id by lia.
      split; [reflexivity|]. split; [exact Hq|]. rewrite Hm0. reflexivity. }
    destruct (choice_any acts action Hin) as [k Hk]. exists k.
    destruct (act_greedy_choice p state false
                {| rand := rand d; sample := sample d; pick := k |} r
                eq_refl ltac:(lia) Hr Hlen Hne) as (m' & acts' & Hm' & Hacts' & Hact).
    rewrite Hm in Hm'. injection Hm' as <-. rewrite Hacts in Hacts'.
    injection Hacts' as <-. rewrite Hact. exact Hk.
  - intros new_state reward p' Hpos Hup d.
    pose proof (update_shaped _ _ _ _ _ _ _ Hup Hshape) as Hshape'.
    destruct (update_inv p state action ltac:(lia) ltac:(lia) _ _ _ _ Hup)
      as (r' & q' & target & Hr' & Hq' & Hp' & Htarget).
    rewrite Hr in Hr'. injection Hr' as <-. rewrite Hq in Hq'. injection Hq' as <-.
    simpl in Htarget. subst target.
    assert (Hns : QLearnPolicy.n_states p' = QLearnPolicy.n_states p) by (subst p'; reflexivity).
    assert (Hna : QLearnPolicy.n_actions p' = QLearnPolicy.n_actions p) by (subst p'; reflexivity).
    apply greedy_unique; [exact Hshape'|lia|lia|].
    intros r1 q1 q2 j Hr1 Hq1 Hq2 Hj. subst p'. simpl in Hr1.
    rewrite list_lookup_insert_eq in Hr1 by (apply lookup_lt_Some in Hr; exact Hr).
    injection Hr1 as <-.
    rewrite list_lookup_insert_eq in Hq1 by (apply lookup_lt_Some in Hq; exact Hq).
    injection Hq1 as <-.
    rewrite list_lookup_insert_ne in Hq2 by congruence.
    rewrite (Forall_lookup_1 _ _ _ _ Hrz Hq2). lra.
Qed.

Lemma greedy_choice_after_first_reward_witness :
  exists p p',
    QLearnPolicy.__init__ toy_spaces (99 # 100) (1 # 2) (998 # 1000) 1 (5 # 100) = Ok p /\
    QLearnPolicy._update_q_value p 1 1 2 1 true = Ok p' /\
    QLearnPolicy.act p' 1 false (toy_rng 6) = Ok 1.
Proof.
  eassert (Hinit : QLearnPolicy.__init__ toy_spaces (99 # 100) (1 # 2) (998 # 1000)
                     1 (5 # 100) = Ok _).
  { vm_compute. reflexivity. }
  match type of Hinit with
  | _ = Ok ?p0 => eassert (Hup : QLearnPolicy._update_q_value p0 1 1 2 1 true = Ok _)
  end.
  { vm_compute. reflexivity. }
  destruct (init_shaped _ _ _ _ _ _ _ Hinit) as [Hshape Hzero].
  destruct (greedy_choice_after_first_reward _ 1 1 Hshape Hzero
              ltac:(simpl; lia) ltac:(simpl; lia)) as [_ Hafter].
  eexists. eexists. split; [exact Hinit|]. split; [exact Hup|].
  refine (Hafter 2 1%Q _ _ Hup _). unfold Qlt. simpl. lia.
Defined.

(** ** What a training run keeps and what it changes *)

Lemma update_same_settings (p p' : QLearnPolicy.t) (s a s' : Z) (reward : Q)
  (done : bool) :
  QLearnPolicy._update_q_value p s a s' reward done = Ok p' ->
  same_settings p p' /\ QLearnPolicy.alpha p' = QLearnPolicy.alpha p.
Proof.
  intros H. destruct (update_inv_any _ _ _ _ _ _ _ H)
    as (ki & kj & r & q & target & _ & _ & -> & _).
  repeat split.
Qed.

Section Bookkeeping.
Import QLearnPolicy.
Context {E : Type}.
Variable reset : E -> E * Z.
Variable step : E -> Z -> E * (Z * Q * bool).
Variable rng : nat -> draw.
Variable every_episodes : option Z.

Lemma episode_inv (fuel : nat) (p p' : t) (e e' : E) (state : Z)
  (n n' : nat) (acc acc' : Q) :
  episode step rng fuel p e state n acc = Ok (p', e', n', acc') ->
  same_settings p p' /\ alpha p' = alpha p /\
  (n < n' <= n + fuel)%nat /\
  (shaped (Qtab p) (n_states p) (n_actions p) ->
   shaped (Qtab p') (n_states p') (n_actions p')).
Proof.
  revert p e state n acc.
  induction fuel as [|fuel IH]; intros p e state n acc H; [discriminate|].
  cbn [episode] in H. unbind H as action Hact.
  destruct (step e action) as [e1 [[new_state reward] done]].
  unbind H as p1 Hup. apply reraise_Ok in Hup.
  destruct (update_same_settings _ _ _ _ _ _ _ Hup) as [Hsame Halpha].
  pose proof (update_shaped _ _ _ _ _ _ _ Hup) as Hsh.
  destruct done.
  - injection H as <- _ <- _.
    split; [exact Hsame|]. split; [exact Halpha|]. split; [lia|exact Hsh].
  - apply IH in H. destruct H as (Hsame' & Halpha' & Hn & Hsh').
    split; [unfold same_settings in *; intuition congruence|].
    split; [congruence|]. split; [lia|].
    intros Hp. apply Hsh', Hsh, Hp.
Qed.

Lemma decay_same_settings (p : t) (drop : Q) :
  same_settings p (decay p drop) /\ Qtab (decay p drop) = Qtab p.
Proof. repeat split. Qed.

Lemma episodes_inv (k fuel : nat) (drop : Q) (s s' : run) :
  episodes reset step rng every_episodes k fuel drop s = Ok s' ->
  same_settings (policy s) (policy s') /\
  length (reward_history s') = (length (reward_history s) + k)%nat /\
  length (reward_averaged s') = (length (reward_averaged s) + k)%nat /\
  (steps s + k <= steps s' <= steps s + k * fuel)%nat /\
  (shaped (Qtab (policy s)) (n_states (policy s)) (n_actions (policy s)) ->
   shaped (Qtab (policy s')) (n_states (policy s')) (n_actions (policy s'))).
Proof.
  revert s. induction k as [|k IH]; intros s H.
  - injection H as <-. split; [unfold same_settings; tauto|].
    split; [lia|]. split; [lia|]. split; [lia|tauto].
  - cbn [episodes] in H. destruct (reset (world s)) as [e state].
    unbind H as r Hep. destruct r as [[[p1 e1] n1] acc1].
    apply episode_inv in Hep. destruct Hep as (Hsame & Halpha & Hn & Hsh).
    unbind H as shown Hshown.
    apply IH in H. cbn [policy steps reward_history reward_averaged] in H.
    destruct H as (Hsame' & Hh & Ha & Hst & Hsh').
    destruct (decay_same_settings p1 drop) as (Hd & Hdt).
    unfold same_settings in *.
    split; [repeat split; intuition congruence|].
    rewrite length_app in Hh, Ha. simpl in Hh, Ha.
    split; [lia|]. split; [lia|]. split; [lia|].
    intros Hp. apply Hsh'. specialize (Hsh Hp).
    destruct Hd as (_ & _ & _ & Hns & Hna). rewrite Hns, Hna, Hdt. exact Hsh.
Qed.
End Bookkeeping.

(** X14. After [N] completed episodes of [train] the reward history and
    the running-average history have [N] entries each, the number of steps
    taken is at least [N] and, if no episode is longer than [fuel] steps,
    at most [N * fuel], and a table of shape [(n_states, n_actions)] still
    has that shape. *)
Theorem train_histories
  {E : Type} (reset : E -> E * Z) (step : E -> Z -> E * (Z * Q * bool))
  (rng : nat -> draw) (every_episodes : option Z)
  (p : QLearnPolicy.t) (e : E) (n_episodes : Z) (N fuel : nat)
  (s : QLearnPolicy.run) :
  QLearnPolicy.train_upto reset step rng every_episodes p e n_episodes N fuel = Ok s ->
  length (QLearnPolicy.reward_history s) = N /\
  length (QLearnPolicy.reward_averaged s) = N /\
  (N <= QLearnPolicy.steps s <= N * fuel)%nat /\
  (shaped (QLearnPolicy.Qtab p) (QLearnPolicy.n_states p) (QLearnPolicy.n_actions p) ->
   shaped (QLearnPolicy.Qtab (QLearnPolicy.policy s))
          (QLearnPolicy.n_states p) (QLearnPolicy.n_actions p)).
Proof.
  intros Htrain. unfold QLearnPolicy.train_upto in Htrain.
  unbind Htrain as drop Hdrop.
  apply episodes_inv in Htrain.
  cbn [QLearnPolicy.start QLearnPolicy.policy QLearnPolicy.steps
       QLearnPolicy.reward_history QLearnPolicy.reward_averaged length] in Htrain.
  destruct Htrain as (Hsame & Hh & Ha & Hst & Hsh).
  split; [lia|]. split; [lia|]. split; [lia|].
  intros Hp. destruct Hsame as (_ & _ & _ & Hns & Hna).
  rewrite <- Hns, <- Hna. apply Hsh, Hp.
Qed.

Lemma train_histories_witness :
  exists p s,
    QLearnPolicy.__init__ toy_spaces (99 # 100) (1 # 2) (998 # 1000) 1 (5 # 100) = Ok p /\
    QLearnPolicy.train_upto countdown_reset countdown_step toy_rng (Some 10) p 0%nat
      4 2 5 = Ok s /\
    length (QLearnPolicy.reward_history s) = 2%nat /\
    (2 <= QLearnPolicy.steps s <= 2 * 5)%nat.
Proof.
  eassert (Hinit : QLearnPolicy.__init__ toy_spaces (99 # 100) (1 # 2) (998 # 1000)
                     1 (5 # 100) = Ok _).
  { vm_compute. reflexivity. }
  match type of Hinit with
  | _ = Ok ?p0 =>
      eassert (Htrain : QLearnPolicy.train_upto countdown_reset countdown_step toy_rng
                          (Some 10) p0 0%nat 4 2 5 = Ok _);
      [vm_compute; reflexivity|]
  end.
  destruct (train_histories _ _ _ _ _ _ _ _ _ _ Htrain) as (Hh & _ & Hst & _).
  eexists. eexists. split; [exact Hinit|]. split; [exact Htrain|].
  split; [exact Hh|exact Hst].
Defined.

(** ** Runs that cannot fail *)

Lemma act_total_in_range (p : QLearnPolicy.t) (state : Z) (training : bool) (d : draw) :
  shaped (QLearnPolicy.Qtab p) (QLearnPolicy.n_states p) (QLearnPolicy.n_actions p) ->
  0 <= state < QLearnPolicy.n_states p ->
  0 < QLearnPolicy.n_actions p ->
  exists a, QLearnPolicy.act p state training d = Ok a /\
            0 <= a < QLearnPolicy.n_actions p.
Proof.
  intros Hshape Hs Hn.
  destruct (QLearnPolicy.explores p training d) eqn:Hex.
  - unfold QLearnPolicy.act. rewrite Hex. unfold np.randint.
    destruct (QLearnPolicy.n_actions p <=? 0) eqn:E; [apply Z.leb_le in E; lia|].
    eexists. split; [reflexivity|]. apply Z.mod_pos_bound. exact Hn.
  - destruct (shaped_cell _ _ _ _ 0 Hshape Hs ltac:(lia)) as (r & q & Hr & Hlen & Hq).
    assert (Hne : r <> []) by (intros ->; discriminate).
    destruct (act_greedy_choice p state training d r Hex ltac:(lia) Hr Hlen Hne)
      as (m & acts & Hm & Hacts & Hact).
    destruct (choice_total acts (pick d)
                (actions_nonempty p r m Hlen Hm acts Hacts)) as [a Hch].
    exists a. split; [rewrite Hact; exact Hch|].
    apply choice_In in Hch. apply (actions_spec p r m Hlen acts a Hacts) in Hch.
    destruct Hch as (i & qi & -> & Hqi & _). apply lookup_lt_Some in Hqi. lia.
Qed.


Section Safety.
Import QLearnPolicy.
Context {E : Type}.
Variable reset : E -> E * Z.
Variable step : E -> Z -> E * (Z * Q * bool).
Variable rng : nat -> draw.
Variable every_episodes : option Z.
Variables ns na : Z.
Hypothesis Hna : 0 < na.
Hypothesis Hrange : stays_in_range ns na reset step.









End Safety.


Lemma countdown_in_range : stays_in_range 3 2 countdown_reset countdown_step.
Proof.
  split.
  - intros e. simpl. lia.
  - intros e a _. simpl.
    pose proof (Nat.mod_upper_bound (Nat.pred e) 3 ltac:(lia)). lia.
Qed.

Lemma countdown_horizon : horizon 3 (fun e => e) countdown_reset countdown_step.
Proof.
  split.
  - intros e. simpl. lia.
  - intros e a. simpl. intros H. apply Nat.leb_gt in H. lia.
Qed.


(** ** Evaluation *)

Lemma act_eval_same (p p' : QLearnPolicy.t) (state : Z) (d : draw) :
  QLearnPolicy.Qtab p = QLearnPolicy.Qtab p' ->
  QLearnPolicy.n_actions p = QLearnPolicy.n_actions p' ->
  QLearnPolicy.act p state false d = QLearnPolicy.act p' state false d.
Proof.
  intros Ht Hn. unfold QLearnPolicy.act, QLearnPolicy.explores,
    QLearnPolicy.actions_with_max_q.
  cbn [andb]. rewrite Ht, Hn. reflexivity.
Qed.

Section Evaluation.
Import QLearnPolicy.
Context {E : Type}.
Variable reset : E -> E * Z.
Variable step : E -> Z -> E * (Z * Q * bool).
Variable rng : nat -> draw.

Lemma eval_episode_same (p p' : t) (fuel : nat) (e : E) (state : Z) (n : nat) (acc : Q) :
  Qtab p = Qtab p' -> n_actions p = n_actions p' ->
  eval_episode step rng fuel p e state n acc
  = eval_episode step rng fuel p' e state n acc.
Proof.
  intros Ht Hn. revert e state n acc.
  induction fuel as [|fuel IH]; intros e state n acc; [reflexivity|].
  cbn [eval_episode]. rewrite (act_eval_same p p' state (rng n) Ht Hn).
  destruct (act p' state false (rng n)) as [a| |]; cbn [bind]; try reflexivity.
  destruct (step e a) as [e1 [[new_state reward] done]].
  destruct done; [reflexivity|]. apply IH.
Qed.

Lemma evaluate_loop_same (p p' : t) (k fuel : nat) (e : E) (n : nat) (history : list Q) :
  Qtab p = Qtab p' -> n_actions p = n_actions p' ->
  evaluate_loop reset step rng k fuel p e n history
  = evaluate_loop reset step rng k fuel p' e n history.
Proof.
  intros Ht Hn. revert e n history.
  induction k as [|k IH]; intros e n history; [reflexivity|].
  cbn [evaluate_loop]. destruct (reset e) as [e1 state].
  rewrite (eval_episode_same p p' fuel e1 state n 0%Q Ht Hn).
  destruct (eval_episode step rng fuel p' e1 state n 0%Q) as [[[e2 n2] acc]| |];
    cbn [bind]; try reflexivity.
  apply IH.
Qed.

Lemma evaluate_loop_length (p : t) (k fuel : nat) (e : E) (n : nat)
  (history result : list Q) :
  evaluate_loop reset step rng k fuel p e n history = Ok result ->
  length result = (length history + k)%nat.
Proof.
  revert e n history. induction k as [|k IH]; intros e n history H.
  - injection H as <-. lia.
  - cbn [evaluate_loop] in H. destruct (reset e) as [e1 state].
    unbind H as r Hr. destruct r as [[e2 n2] acc].
    apply IH in H. rewrite length_app in H. simpl in H. lia.
Qed.

Variables ns na : Z.
Hypothesis Hna : 0 < na.
Hypothesis Hrange : stays_in_range ns na reset step.

Lemma eval_episode_safe (p : t) (fuel : nat) (e : E) (state : Z) (n : nat) (acc : Q) :
  shaped (Qtab p) (n_states p) (n_actions p) -> n_states p = ns -> n_actions p = na ->
  0 <= state < ns ->
  ~ raises (eval_episode step rng fuel p e state n acc).
Proof.
  intros Hsh Hns Hnact. revert e state n acc.
  induction fuel as [|fuel IH]; intros e state n acc Hs; [simpl; tauto|].
  destruct (act_total_in_range p state false (rng n) Hsh ltac:(lia) ltac:(lia))
    as (a & Hact & Ha).
  cbn [eval_episode]. rewrite Hact. cbn [bind].
  pose proof (proj2 Hrange e a ltac:(lia)) as Hnew.
  destruct (step e a) as [e1 [[new_state reward] done]]. simpl in Hnew.
  destruct done; [simpl; tauto|]. apply IH. exact Hnew.
Qed.

Lemma eval_episode_returns (h : E -> nat) (H : nat) (p : t) (fuel : nat) (e : E)
  (state : Z) (n : nat) (acc : Q) :
  horizon H h reset step ->
  shaped (Qtab p) (n_states p) (n_actions p) -> n_states p = ns -> n_actions p = na ->
  0 <= state < ns -> (h e < fuel)%nat ->
  exists r, eval_episode step rng fuel p e state n acc = Ok r.
Proof.
  intros Hhor Hsh Hns Hnact. revert e state n acc.
  induction fuel as [|fuel IH]; intros e state n acc Hs Hfuel; [lia|].
  destruct (act_total_in_range p state false (rng n) Hsh ltac:(lia) ltac:(lia))
    as (a & Hact & Ha).
  cbn [eval_episode]. rewrite Hact. cbn [bind].
  pose proof (proj2 Hrange e a ltac:(lia)) as Hnew.
  pose proof (proj2 Hhor e a) as Hdec.
  destruct (step e a) as [e1 [[new_state reward] done]]. simpl in Hnew, Hdec.
  destruct done; [eauto|]. apply IH; [exact Hnew|specialize (Hdec eq_refl); lia].
Qed.

Lemma evaluate_loop_safe (p : t) (k fuel : nat) (e : E) (n : nat) (history : list Q) :
  shaped (Qtab p) (n_states p) (n_actions p) -> n_states p = ns -> n_actions p = na ->
  ~ raises (evaluate_loop reset step rng k fuel p e n history).
Proof.
  intros Hsh Hns Hnact. revert e n history.
  induction k as [|k IH]; intros e n history; [simpl; tauto|].
  cbn [evaluate_loop]. pose proof (proj1 Hrange e) as Hs.
  destruct (reset e) as [e1 state]. simpl in Hs.
  pose proof (eval_episode_safe p fuel e1 state n 0%Q Hsh Hns Hnact Hs) as Hsafe.
  destruct (eval_episode step rng fuel p e1 state n 0%Q) as [[[e2 n2] acc]| |];
    [|simpl in Hsafe; tauto|simpl; tauto].
  cbn [bind]. apply IH.
Qed.

Lemma evaluate_loop_returns (h : E -> nat) (H : nat) (p : t) (k fuel : nat) (e : E)
  (n : nat) (history : list Q) :
  horizon H h reset step -> (H < fuel)%nat ->
  shaped (Qtab p) (n_states p) (n_actions p) -> n_states p = ns -> n_actions p = na ->
  exists result, evaluate_loop reset step rng k fuel p e n history = Ok result.
Proof.
  intros Hhor Hfuel Hsh Hns Hnact. revert e n history.
  induction k as [|k IH]; intros e n history; [simpl; eauto|].
  cbn [evaluate_loop]. pose proof (proj1 Hrange e) as Hs.
  pose proof (proj1 Hhor e) as Hh.
  destruct (reset e) as [e1 state]. simpl in Hs, Hh.
  destruct (eval_episode_returns h H p fuel e1 state n 0%Q Hhor Hsh Hns Hnact Hs
              ltac:(lia)) as [[[e2 n2] acc] Hep].
  rewrite Hep. cbn [bind]. apply IH.
Qed.
End Evaluation.

(** X16. [evaluate] reads nothing of the learner but its table and its
    number of actions: two learners that agree on these give the same
    result, whatever their discount, learning rate and exploration rate
    are; in particular evaluation never explores. *)
Theorem evaluate_uses_table_only
  {E : Type} (reset : E -> E * Z) (step : E -> Z -> E * (Z * Q * bool))
  (rng : nat -> draw)
  (p p' : QLearnPolicy.t) (e : E) (n_episodes : Z) (fuel : nat) :
  QLearnPolicy.Qtab p = QLearnPolicy.Qtab p' ->
  QLearnPolicy.n_actions p = QLearnPolicy.n_actions p' ->
  QLearnPolicy.evaluate reset step rng p e n_episodes fuel
  = QLearnPolicy.evaluate reset step rng p' e n_episodes fuel.
Proof.
  intros Ht Hn. unfold QLearnPolicy.evaluate. apply evaluate_loop_same; assumption.
Qed.

Lemma evaluate_uses_table_only_witness :
  exists p p',
    QLearnPolicy.__init__ toy_spaces (99 # 100) (1 # 2) (998 # 1000) 1 (5 # 100) = Ok p /\
    QLearnPolicy.__init__ toy_spaces 0 1 1 0 0 = Ok p' /\
    QLearnPolicy.evaluate countdown_reset countdown_step toy_rng p 0%nat 2 4
    = QLearnPolicy.evaluate countdown_reset countdown_step toy_rng p' 0%nat 2 4.
Proof.
  eassert (Hinit : QLearnPolicy.__init__ toy_spaces (99 # 100) (1 # 2) (998 # 1000)
                     1 (5 # 100) = Ok _).
  { vm_compute. reflexivity. }
  eassert (Hinit' : QLearnPolicy.__init__ toy_spaces 0 1 1 0 0 = Ok _).
  { vm_compute. reflexivity. }
  eexists. eexists. split; [exact Hinit|]. split; [exact Hinit'|].
  apply evaluate_uses_table_only; reflexivity.
Defined.

(** X17. If the table has the learner's shape, there is at least one
    action, and the environment only produces states in
    [0 .. n_states-1] when driven with actions in [0 .. n_actions-1], then
    [evaluate] never raises an exception, and if every episode of the environment ends within [H]
    steps it returns (given more than [H] steps of fuel per episode) one
    total reward per episode; whenever it returns, the list has
    [n_episodes] entries, none for [n_episodes <= 0]. *)
Theorem evaluate_cannot_fail
  {E : Type} (reset : E -> E * Z) (step : E -> Z -> E * (Z * Q * bool))
  (rng : nat -> draw)
  (p : QLearnPolicy.t) (e : E) (n_episodes : Z) (fuel : nat) :
  shaped (QLearnPolicy.Qtab p) (QLearnPolicy.n_states p) (QLearnPolicy.n_actions p) ->
  0 < QLearnPolicy.n_actions p ->
  stays_in_range (QLearnPolicy.n_states p) (QLearnPolicy.n_actions p) reset step ->
  ~ raises (QLearnPolicy.evaluate reset step rng p e n_episodes fuel) /\
  (forall H h, horizon H h reset step -> (H < fuel)%nat ->
     exists history,
       QLearnPolicy.evaluate reset step rng p e n_episodes fuel = Ok history) /\
  (forall history,
     QLearnPolicy.evaluate reset step rng p e n_episodes fuel = Ok history ->
     length history = Z.to_nat n_episodes).
Proof.
  intros Hshape Hna Hrange. unfold QLearnPolicy.evaluate. split; [|split].
  - apply (evaluate_loop_safe reset step rng _ _ Hna Hrange); auto.
  - intros H h Hhor Hfuel.
    apply (evaluate_loop_returns reset step rng _ _ Hna Hrange h H); auto.
  - intros history Hev. apply evaluate_loop_length in Hev. simpl in Hev. exact Hev.
Qed.

Lemma evaluate_cannot_fail_witness :
  exists p history,
    QLearnPolicy.__init__ toy_spaces (99 # 100) (1 # 2) (998 # 1000) 1 (5 # 100) = Ok p /\
    QLearnPolicy.evaluate countdown_reset countdown_step toy_rng p 0%nat 5 4
    = Ok history /\
    length history = Z.to_nat 5.
Proof.
  eassert (Hinit : QLearnPolicy.__init__ toy_spaces (99 # 100) (1 # 2) (998 # 1000)
                     1 (5 # 100) = Ok _).
  { vm_compute. reflexivity. }
  destruct (init_shaped _ _ _ _ _ _ _ Hinit) as [Hshape _].
  match type of Hinit with
  | _ = Ok ?p0 =>
      destruct (evaluate_cannot_fail countdown_reset countdown_step toy_rng p0 0%nat 5 4
                  Hshape ltac:(simpl; lia) countdown_in_range) as (_ & Hret & Hlen)
  end.
  destruct (Hret 3%nat (fun e => e) countdown_horizon ltac:(lia)) as [history Hev].
  eexists. exists history. split; [exact Hinit|]. split; [exact Hev|].
  apply Hlen. exact Hev.
Defined.

(** ** Runs without episodes *)

(** X18. [train] does not return for an episode count that is not
    positive: with [n_episodes = 0] the computation of the exploration
    step divides by zero, and with [n_episodes < 0] no episode is run and
    the final report takes the maximum of an empty reward history.
    [evaluate] with [n_episodes <= 0] returns the empty list. *)
Theorem runs_without_episodes
  {E : Type} (reset : E -> E * Z) (step : E -> Z -> E * (Z * Q * bool))
  (rng : nat -> draw) (every_episodes : option Z)
  (p : QLearnPolicy.t) (e : E) (n_episodes : Z) (fuel : nat) :
  (n_episodes = 0 ->
   QLearnPolicy.train reset step rng every_episodes p e n_episodes fuel = Raise ZeroDivisionError) /\
  (n_episodes < 0 ->
   QLearnPolicy.train reset step rng every_episodes p e n_episodes fuel = Raise ValueError) /\
  (n_episodes <= 0 ->
   QLearnPolicy.evaluate reset step rng p e n_episodes fuel = Ok []).
Proof.
  split; [|split].
  - intros ->. reflexivity.
  - intros Hn. unfold QLearnPolicy.train, QLearnPolicy.train_upto, epsilon_drop.
    destruct (n_episodes =? 0) eqn:E0; [apply Z.eqb_eq in E0; lia|].
    replace (Z.to_nat n_episodes) with 0%nat by lia. reflexivity.
  - intros Hn. unfold QLearnPolicy.evaluate.
    replace (Z.to_nat n_episodes) with 0%nat by lia. reflexivity.
Qed.

(** ** An exploration rate at or below the floor *)

(** X19. In any arithmetic, an exploration rate that is not above
    [epsilon_final] is never changed by the schedule of [train], whatever
    the step and the number of episodes are (so a rate that rounding has
    pushed below the floor stays there, and a learner constructed with
    [epsilon <= epsilon_final] keeps its rate). *)
Theorem epsilon_frozen_at_floor
  {F : Type} (ar : arith F) (epsilon epsilon_final : F) (N : nat) :
  a_gtb ar epsilon epsilon_final = false ->
  (forall drop, epsilon_after ar N epsilon_final drop epsilon = epsilon) /\
  (forall n_episodes, n_episodes <> 0 ->
     epsilon_schedule ar epsilon epsilon_final n_episodes N = Ok epsilon).
Proof.
  intros Hgt.
  assert (Hfix : forall drop, epsilon_after ar N epsilon_final drop epsilon = epsilon).
  { intros drop. induction N as [|k IH]; [reflexivity|].
    rewrite epsilon_after_succ, IH. unfold decay_epsilon. rewrite Hgt. reflexivity. }
  split; [exact Hfix|].
  intros n Hn. unfold epsilon_schedule, epsilon_drop.
  destruct (n =? 0) eqn:E0; [apply Z.eqb_eq in E0; lia|].
  cbn [bind]. rewrite Hfix. reflexivity.
Qed.

Lemma epsilon_frozen_at_floor_witness :
  PrimFloat.ltb 0x1.999999999999ap-5%float 0x1.9999999999993p-5%float = false /\
  epsilon_schedule binary64 0x1.9999999999993p-5%float 0x1.999999999999ap-5%float
    1000 500 = Ok 0x1.9999999999993p-5%float.
Proof.
  assert (H : a_gtb binary64 0x1.9999999999993p-5%float 0x1.999999999999ap-5%float
              = false) by (vm_compute; reflexivity).
  split; [exact H|].
  apply (proj2 (epsilon_frozen_at_floor binary64 _ _ 500 H)). lia.
Defined.
